(** * Scheduler core of [scripts/multi_agent_parallel_execution.py]

    A shallow embedding of the [AgentManager] class: the priority queue, the
    agent selector, the dispatcher batch, the completion handler, the health
    monitor sweep, the performance tracker and the status report.

    Conventions of the embedding:
    - Python [float] timestamps and scores are exact rationals ([Qc]); every
      call of [time.time()] is an explicit argument of the function that
      makes it;
    - [self.agents] is an insertion-ordered dictionary, kept as an association
      list with unique keys; [self.active_tasks] is a [gmap];
    - the objects mutated in place by the source ([Agent], [Task]) are values
      stored in these collections; a method returns the manager it leaves
      behind;
    - [self.browser_agents] has the keys of [self.agents] and is only passed
      on to the executor, whose answer is the [ExecOutcome] argument of
      [_execute_task]; the [Agent] object a running execution holds is named
      by its key;
    - [str.lower] is the ASCII lowering of the description. *)

From Stdlib Require Import QArith Qcanon.
From stdpp Require Import base numbers list strings gmap pretty sorting.

Local Open Scope string_scope.
Local Open Scope list_scope.

Set Warnings "-clear-no-such-hyp".

(** ** Enumerations (source lines 26-38) *)

Inductive AgentStatus := IDLE | BUSY | ERROR | OFFLINE.

Inductive TaskPriority := LOW | NORMAL | HIGH | CRITICAL.

#[global] Instance AgentStatus_eq_dec : EqDecision AgentStatus.
Proof. solve_decision. Defined.

#[global] Instance TaskPriority_eq_dec : EqDecision TaskPriority.
Proof. solve_decision. Defined.

(** [AgentStatus.value] *)
Definition status_value (s : AgentStatus) : string :=
  match s with
  | IDLE => "idle" | BUSY => "busy" | ERROR => "error" | OFFLINE => "offline"
  end.

(** [TaskPriority.value] *)
Definition priority_value (p : TaskPriority) : Z :=
  match p with
  | LOW => 1 | NORMAL => 2 | HIGH => 3 | CRITICAL => 4
  end.

(** ** Numbers *)

Definition Qc_of_nat (n : nat) : Qc := Qc_of_Z (Z.of_nat n).

(** The literal [0.1] of the load-balancing penalty. *)
Definition one_tenth : Qc := Q2Qc (1 # 10).

(** Python's [max(a, b)] on two numbers: [b] wins only when it is strictly
    greater. *)
Definition py_max (a b : Qc) : Qc := if bool_decide (a < b)%Qc then b else a.

(** ** The dictionary returned by an executor (source lines 95-107, 114)

    Only the keys read by the manager are optional fields: [.get] supplies a
    default when one is absent. *)

Record ExecResult := mkExecResult {
  res_success : option bool;
  res_error : option string;
  res_execution_time : option Qc;
  res_data : option string
}.

(** What awaiting [browser_agent.execute_task(task)] produces. *)
Inductive ExecOutcome :=
| Returned (r : ExecResult)
| Raised (msg : string).

(** ** Task (source lines 40-56) *)

Module Task.
Record t := mk {
  id : string;
  name : string;
  description : string;
  url : string;
  actions : list string;
  priority : TaskPriority;
  timeout : Z;
  retry_count : Z;
  created_at : option Qc;
  assigned_agent : option string;
  started_at : option Qc;
  completed_at : option Qc;
  result : option ExecResult;
  error : option string
}.

Definition set_created_at (v : option Qc) (k : t) : t :=
  mk (id k) (name k) (description k) (url k) (actions k) (priority k)
     (timeout k) (retry_count k) v (assigned_agent k) (started_at k)
     (completed_at k) (result k) (error k).

Definition set_assigned_agent (v : option string) (k : t) : t :=
  mk (id k) (name k) (description k) (url k) (actions k) (priority k)
     (timeout k) (retry_count k) (created_at k) v (started_at k)
     (completed_at k) (result k) (error k).

Definition set_started_at (v : option Qc) (k : t) : t :=
  mk (id k) (name k) (description k) (url k) (actions k) (priority k)
     (timeout k) (retry_count k) (created_at k) (assigned_agent k) v
     (completed_at k) (result k) (error k).

Definition set_completed_at (v : option Qc) (k : t) : t :=
  mk (id k) (name k) (description k) (url k) (actions k) (priority k)
     (timeout k) (retry_count k) (created_at k) (assigned_agent k)
     (started_at k) v (result k) (error k).

Definition set_result (v : option ExecResult) (k : t) : t :=
  mk (id k) (name k) (description k) (url k) (actions k) (priority k)
     (timeout k) (retry_count k) (created_at k) (assigned_agent k)
     (started_at k) (completed_at k) v (error k).

Definition set_error (v : option string) (k : t) : t :=
  mk (id k) (name k) (description k) (url k) (actions k) (priority k)
     (timeout k) (retry_count k) (created_at k) (assigned_agent k)
     (started_at k) (completed_at k) (result k) v.

(** The constructor call of the source with every defaulted field left
    out. *)
Definition new (i n d u : string) (acts : list string) (p : TaskPriority)
    (tmo retries : Z) : t :=
  mk i n d u acts p tmo retries None None None None None None.
End Task.

(** ** Agent (source lines 58-70) *)

Module Agent.
Record t := mk {
  id : string;
  name : string;
  status : AgentStatus;
  current_task : option string;
  completed_tasks : nat;
  failed_tasks : nat;
  total_execution_time : Qc;
  last_activity : Qc;
  capabilities : list string;
  max_concurrent_tasks : nat
}.

Definition set_status (v : AgentStatus) (a : t) : t :=
  mk (id a) (name a) v (current_task a) (completed_tasks a) (failed_tasks a)
     (total_execution_time a) (last_activity a) (capabilities a)
     (max_concurrent_tasks a).

Definition set_current_task (v : option string) (a : t) : t :=
  mk (id a) (name a) (status a) v (completed_tasks a) (failed_tasks a)
     (total_execution_time a) (last_activity a) (capabilities a)
     (max_concurrent_tasks a).

Definition set_completed_tasks (v : nat) (a : t) : t :=
  mk (id a) (name a) (status a) (current_task a) v (failed_tasks a)
     (total_execution_time a) (last_activity a) (capabilities a)
     (max_concurrent_tasks a).

Definition set_failed_tasks (v : nat) (a : t) : t :=
  mk (id a) (name a) (status a) (current_task a) (completed_tasks a) v
     (total_execution_time a) (last_activity a) (capabilities a)
     (max_concurrent_tasks a).

Definition set_total_execution_time (v : Qc) (a : t) : t :=
  mk (id a) (name a) (status a) (current_task a) (completed_tasks a)
     (failed_tasks a) v (last_activity a) (capabilities a)
     (max_concurrent_tasks a).

Definition set_last_activity (v : Qc) (a : t) : t :=
  mk (id a) (name a) (status a) (current_task a) (completed_tasks a)
     (failed_tasks a) (total_execution_time a) v (capabilities a)
     (max_concurrent_tasks a).
End Agent.

(** ** The [stats] dictionary of the manager (source lines 129-135) *)

Module Stats.
Record t := mk {
  total_tasks : nat;
  completed_tasks : nat;
  failed_tasks : nat;
  average_execution_time : Qc;
  start_time : Qc
}.

Definition set_total_tasks (v : nat) (s : t) : t :=
  mk v (completed_tasks s) (failed_tasks s) (average_execution_time s)
     (start_time s).

Definition set_completed_tasks (v : nat) (s : t) : t :=
  mk (total_tasks s) v (failed_tasks s) (average_execution_time s)
     (start_time s).

Definition set_failed_tasks (v : nat) (s : t) : t :=
  mk (total_tasks s) (completed_tasks s) v (average_execution_time s)
     (start_time s).

Definition set_average_execution_time (v : Qc) (s : t) : t :=
  mk (total_tasks s) (completed_tasks s) (failed_tasks s) v (start_time s).

Definition set_start_time (v : Qc) (s : t) : t :=
  mk (total_tasks s) (completed_tasks s) (failed_tasks s)
     (average_execution_time s) v.
End Stats.

(** ** Insertion-ordered dictionaries *)

Section Dict.
Context {V : Type}.

  (** [d.get(k)] *)
Fixpoint dict_get (d : list (string * V)) (k : string) : option V :=
    match d with
    | [] => None
    | (k', v) :: d' => if decide (k' = k) then Some v else dict_get d' k
    end.

  (** [d[k] = v]: an existing key keeps its position, a new key goes last. *)
Fixpoint dict_set (d : list (string * V)) (k : string) (v : V)
      : list (string * V) :=
    match d with
    | [] => [(k, v)]
    | (k', v') :: d' =>
        if decide (k' = k) then (k, v) :: d' else (k', v') :: dict_set d' k v
    end.

  (** In-place mutation of the object stored under [k]. *)
Fixpoint dict_update (d : list (string * V)) (k : string) (f : V -> V)
      : list (string * V) :=
    match d with
    | [] => []
    | (k', v') :: d' =>
        if decide (k' = k) then (k', f v') :: d'
        else (k', v') :: dict_update d' k f
    end.

  (** [d.values()] *)
Definition dict_values (d : list (string * V)) : list V := snd <$> d.
End Dict.

(** ** The manager (source lines 121-135) *)

Record AgentManager := mkManager {
  max_agents : Z;
  agents : list (string * Agent.t);
  task_queue : list Task.t;
  completed_tasks : list Task.t;
  active_tasks : gmap string Task.t;
  is_running : bool;
  stats : Stats.t
}.

Definition set_agents (v : list (string * Agent.t)) (m : AgentManager) :=
  mkManager (max_agents m) v (task_queue m) (completed_tasks m)
            (active_tasks m) (is_running m) (stats m).

Definition set_task_queue (v : list Task.t) (m : AgentManager) :=
  mkManager (max_agents m) (agents m) v (completed_tasks m)
            (active_tasks m) (is_running m) (stats m).

Definition set_completed_tasks (v : list Task.t) (m : AgentManager) :=
  mkManager (max_agents m) (agents m) (task_queue m) v
            (active_tasks m) (is_running m) (stats m).

Definition set_active_tasks (v : gmap string Task.t) (m : AgentManager) :=
  mkManager (max_agents m) (agents m) (task_queue m) (completed_tasks m)
            v (is_running m) (stats m).

Definition set_is_running (v : bool) (m : AgentManager) :=
  mkManager (max_agents m) (agents m) (task_queue m) (completed_tasks m)
            (active_tasks m) v (stats m).

Definition set_stats (v : Stats.t) (m : AgentManager) :=
  mkManager (max_agents m) (agents m) (task_queue m) (completed_tasks m)
            (active_tasks m) (is_running m) v.

(** [AgentManager.__init__] *)
Definition new_manager (n : Z) : AgentManager :=
  mkManager n [] [] [] ∅ false (Stats.mk 0 0 0 (Qc_of_Z 0) (Qc_of_Z 0)).

(** ** String helpers used by the keyword inference *)

(** One character of [str.lower()], on ASCII letters. *)
Definition lower_ascii (c : Ascii.ascii) : Ascii.ascii :=
  let n := Ascii.nat_of_ascii c in
  if (65 <=? n)%nat && (n <=? 90)%nat then Ascii.ascii_of_nat (n + 32)
  else c.

(** [s.lower()] *)
Fixpoint lower (s : string) : string :=
  match s with
  | EmptyString => EmptyString
  | String c s' => String (lower_ascii c) (lower s')
  end.

(** [needle in s] on strings: [needle] occurs as a contiguous substring. *)
Fixpoint contains (needle s : string) : bool :=
  String.prefix needle s
  || match s with
     | EmptyString => false
     | String _ s' => contains needle s'
     end.

(** ** Selector *)

(** [_extract_task_requirements] (source lines 285-299). *)
Definition _extract_task_requirements (task : Task.t) : list string :=
  let d := lower (Task.description task) in
  let requirements : list string := [] in
  let requirements :=
    if contains "form" d then (requirements ++ ["form_filling"])%list
    else requirements in
  let requirements :=
    if contains "scrape" d || contains "extract" d
    then (requirements ++ ["scraping"])%list else requirements in
  let requirements :=
    if contains "test" d then (requirements ++ ["testing"])%list
    else requirements in
  let requirements :=
    if contains "monitor" d then (requirements ++ ["monitoring"])%list
    else requirements in
  match requirements with
  | [] => ["general"]
  | _ => requirements
  end.

(** [len(set(agent.capabilities) & set(task_requirements))] *)
Definition matching_capabilities (agent : Agent.t) (task : Task.t) : nat :=
  size ((list_to_set (Agent.capabilities agent) : gset string)
        ∩ list_to_set (_extract_task_requirements task)).

(** The score the loop body of [_select_best_agent] computes for one
    candidate (source lines 261-277). *)
Definition agent_score (agent : Agent.t) (task : Task.t) : Qc :=
  let score := Qc_of_Z 0 in
  let score := (score + Qc_of_nat (matching_capabilities agent task)
                        * Qc_of_Z 10)%Qc in
  let score :=
    if (Agent.completed_tasks agent =? 0)%nat then (score + Qc_of_Z 5)%Qc
    else (score - Qc_of_nat (Agent.completed_tasks agent) * one_tenth)%Qc in
  let score :=
    if (0 <? Agent.completed_tasks agent)%nat then
      let success_rate :=
        (Qc_of_nat (Agent.completed_tasks agent)
         / Qc_of_nat (Agent.completed_tasks agent + Agent.failed_tasks agent))%Qc
      in (score + success_rate * Qc_of_Z 5)%Qc
    else score in
  score.

(** A call either returns or raises the [KeyError] of a failed dictionary
    subscript. *)
Inductive Res (A : Type) :=
| Return (a : A)
| KeyError (key : string).
Arguments Return {A} a.
Arguments KeyError {A} key.

(** The [for agent_id in available_agents] loop of [_select_best_agent],
    carrying [best_agent] and [best_score]. *)
Fixpoint select_loop (ags : list (string * Agent.t)) (task : Task.t)
    (available_agents : list string) (best_agent : option string)
    (best_score : Qc) : Res (option string) :=
  match available_agents with
  | [] => Return best_agent
  | agent_id :: rest =>
      match dict_get ags agent_id with
      | None => KeyError agent_id
      | Some agent =>
          let score := agent_score agent task in
          if bool_decide (best_score < score)%Qc
          then select_loop ags task rest (Some agent_id) score
          else select_loop ags task rest best_agent best_score
      end
  end.

(** [_select_best_agent] (source lines 254-283). *)
Definition _select_best_agent (m : AgentManager) (task : Task.t)
    (available_agents : list string) : Res (option string) :=
  select_loop (agents m) task available_agents None (Qc_of_Z (-1)).

(** ** Task queue *)

(** [t.priority.value], the sort key of [add_task]. *)
Definition sort_key (t : Task.t) : Z := priority_value (Task.priority t).

(** Insertion of [x], which stood in front of every element of the sorted
    list [l]: it passes the strictly greater keys and stops in front of the
    first key that is not greater, so it stays ahead of its equals. *)
Fixpoint insert_desc (x : Task.t) (l : list Task.t) : list Task.t :=
  match l with
  | [] => [x]
  | y :: l' =>
      if (sort_key x <? sort_key y)%Z then y :: insert_desc x l'
      else x :: y :: l'
  end.

(** [queue.sort(key=lambda t: t.priority.value, reverse=True)]: the sort of
    Python lists is stable, with [reverse=True] too; it is embedded as the
    stable insertion sort by descending key. *)
Definition sort_desc (l : list Task.t) : list Task.t :=
  foldr insert_desc [] l.

(** [add_task] (source lines 180-189); [now] is the reading of the clock. *)
Definition add_task (m : AgentManager) (task : Task.t) (now : Qc)
    : AgentManager :=
  let task := Task.set_created_at (Some now) task in
  let m := set_task_queue (task_queue m ++ [task]) m in
  let m :=
    set_stats (Stats.set_total_tasks (Stats.total_tasks (stats m) + 1)
                 (stats m)) m in
  set_task_queue (sort_desc (task_queue m)) m.

(** [add_tasks_batch] (source lines 191-196); the [i]-th call of [add_task]
    reads [clock i]. *)
Fixpoint add_tasks_from (i : nat) (m : AgentManager) (tasks : list Task.t)
    (clock : nat -> Qc) : AgentManager :=
  match tasks with
  | [] => m
  | task :: rest => add_tasks_from (S i) (add_task m task (clock i)) rest clock
  end.

Definition add_tasks_batch (m : AgentManager) (tasks : list Task.t)
    (clock : nat -> Qc) : AgentManager :=
  add_tasks_from 0 m tasks clock.

(** ** Dispatcher *)

(** [_assign_task_to_agent] (source lines 301-323).  A missing agent raises
    inside the [try], whose handler only logs: nothing has been written yet.
    The spawned [_execute_task] is a later event, see [_execute_task]. *)
Definition _assign_task_to_agent (m : AgentManager) (task : Task.t)
    (agent_id : string) (now_activity now_started : Qc) : AgentManager :=
  match dict_get (agents m) agent_id with
  | None => m
  | Some _ =>
      let m :=
        set_agents
          (dict_update (agents m) agent_id
             (fun a => Agent.set_last_activity now_activity
                         (Agent.set_current_task (Some (Task.id task))
                            (Agent.set_status BUSY a)))) m in
      let task := Task.set_assigned_agent (Some agent_id) task in
      let task := Task.set_started_at (Some now_started) task in
      set_active_tasks (<[Task.id task := task]> (active_tasks m)) m
  end.

(** [available_agents.remove(agent_id)]: the first occurrence goes. *)
Fixpoint list_remove_first (x : string) (l : list string) : list string :=
  match l with
  | [] => []
  | y :: l' => if decide (y = x) then l' else y :: list_remove_first x l'
  end.

(** The ids of the agents whose status is [IDLE], in dictionary order
    (source lines 228-231). *)
Definition idle_agents (ags : list (string * Agent.t)) : list string :=
  fst <$> filter (fun kv => Agent.status kv.2 = IDLE) ags.

(** The [for i in range(tasks_to_assign)] loop (source lines 240-246); the
    [i]-th assignment reads the clock pair [clock i].  An exception
    ([pop] from an empty queue, a [KeyError] of the selector) leaves the
    loop for the handler of the distributor, which only logs. *)
Fixpoint assign_batch (n i : nat) (m : AgentManager)
    (available_agents : list string) (clock : nat -> Qc * Qc)
    : AgentManager :=
  match n with
  | O => m
  | S n' =>
      match task_queue m with
      | [] => m
      | task :: q =>
          let m := set_task_queue q m in
          match _select_best_agent m task available_agents with
          | KeyError _ => m
          | Return None => assign_batch n' (S i) m available_agents clock
          | Return (Some agent_id) =>
              if decide (agent_id = "")
              then assign_batch n' (S i) m available_agents clock
              else
                let m :=
                  _assign_task_to_agent m task agent_id
                    (clock i).1 (clock i).2 in
                assign_batch n' (S i) m
                  (list_remove_first agent_id available_agents) clock
          end
      end
  end.

(** One turn of the [while self.is_running] loop of [_task_distributor]
    (source lines 221-252), sleeps left out. *)
Definition _task_distributor (m : AgentManager) (clock : nat -> Qc * Qc)
    : AgentManager :=
  match task_queue m with
  | [] => m
  | _ =>
      let available_agents := idle_agents (agents m) in
      match available_agents with
      | [] => m
      | _ =>
          let tasks_to_assign :=
            Nat.min (length (task_queue m)) (length available_agents) in
          assign_batch tasks_to_assign 0 m available_agents clock
      end
  end.

(** ** Completion handler *)

(** [result.get("success", False)] *)
Definition get_success (r : ExecResult) : bool := default false (res_success r).

(** [result.get("error", "Unknown error")] *)
Definition get_error (r : ExecResult) : string :=
  default "Unknown error" (res_error r).

(** The updates [_execute_task] makes to its [task] argument. *)
Definition complete_task (task : Task.t) (out : ExecOutcome)
    (now_completed : Qc) : Task.t :=
  match out with
  | Returned r =>
      let task := Task.set_completed_at (Some now_completed) task in
      let task := Task.set_result (Some r) task in
      if get_success r then task
      else Task.set_error (Some (get_error r)) task
  | Raised msg =>
      let task := Task.set_error (Some msg) task in
      Task.set_completed_at (Some now_completed) task
  end.

(** The updates [_execute_task] makes to its [agent] argument. *)
Definition complete_agent (agent : Agent.t) (out : ExecOutcome)
    (execution_time now_activity : Qc) : Agent.t :=
  match out with
  | Returned r =>
      let agent :=
        if get_success r
        then Agent.set_completed_tasks (Agent.completed_tasks agent + 1) agent
        else Agent.set_failed_tasks (Agent.failed_tasks agent + 1) agent in
      let agent := Agent.set_status IDLE agent in
      let agent := Agent.set_current_task None agent in
      let agent :=
        Agent.set_total_execution_time
          (Agent.total_execution_time agent + execution_time)%Qc agent in
      Agent.set_last_activity now_activity agent
  | Raised _ =>
      let agent := Agent.set_status ERROR agent in
      Agent.set_failed_tasks (Agent.failed_tasks agent + 1) agent
  end.

(** The updates [_execute_task] makes to [self.stats]. *)
Definition complete_stats (s : Stats.t) (out : ExecOutcome) : Stats.t :=
  match out with
  | Returned r =>
      if get_success r
      then Stats.set_completed_tasks (Stats.completed_tasks s + 1) s
      else Stats.set_failed_tasks (Stats.failed_tasks s + 1) s
  | Raised _ => Stats.set_failed_tasks (Stats.failed_tasks s + 1) s
  end.

(** [_execute_task] (source lines 325-373) from the point where the awaited
    executor has produced [out]: [Returned r] runs lines 333-358, [Raised msg]
    the handler of lines 360-373.  [agent_id] names the [Agent] object the
    coroutine was spawned with, [execution_time] is
    [time.time() - start_time]. *)
Definition _execute_task (m : AgentManager) (task : Task.t)
    (agent_id : string) (out : ExecOutcome)
    (execution_time now_completed now_activity : Qc) : AgentManager :=
  let task' := complete_task task out now_completed in
  let m :=
    set_agents
      (dict_update (agents m) agent_id
         (fun a => complete_agent a out execution_time now_activity)) m in
  let m := set_stats (complete_stats (stats m) out) m in
  let m := set_active_tasks (delete (Task.id task) (active_tasks m)) m in
  set_completed_tasks (completed_tasks m ++ [task']) m.

(** ** Health monitor *)

(** The body of the [for agent_id, agent in self.agents.items()] loop of
    [_agent_monitor] (source lines 382-393). *)
Definition monitor_agent (current_time : Qc) (agent : Agent.t) : Agent.t :=
  match Agent.status agent with
  | BUSY =>
      if bool_decide (Qc_of_Z 30 < current_time - Agent.last_activity agent)%Qc
      then Agent.set_current_task None (Agent.set_status IDLE agent)
      else agent
  | ERROR =>
      if bool_decide (Qc_of_Z 10 < current_time - Agent.last_activity agent)%Qc
      then Agent.set_status IDLE agent
      else agent
  | _ => agent
  end.

(** One turn of the loop of [_agent_monitor] (source lines 377-399). *)
Definition _agent_monitor (m : AgentManager) (current_time : Qc)
    : AgentManager :=
  set_agents (prod_map id (monitor_agent current_time) <$> agents m) m.

(** ** Performance tracker *)

(** [sum(agent.total_execution_time for agent in self.agents.values())] *)
Definition total_time (ags : list (string * Agent.t)) : Qc :=
  foldl (fun acc a => (acc + Agent.total_execution_time a)%Qc) (Qc_of_Z 0)
        (dict_values ags).

(** The recomputation at the head of one turn of [_performance_tracker]
    (source lines 405-408); the rest of the turn sleeps and logs. *)
Definition _performance_tracker (m : AgentManager) : AgentManager :=
  if (0 <? Stats.completed_tasks (stats m))%nat then
    set_stats
      (Stats.set_average_execution_time
         (total_time (agents m)
          / Qc_of_nat (Stats.completed_tasks (stats m)))%Qc (stats m)) m
  else m.

(** ** Status report (source lines 423-466) *)

Record AgentSummary := mkAgentSummary {
  sum_name : string;
  sum_status : string;
  sum_completed_tasks : nat;
  sum_failed_tasks : nat;
  sum_success_rate : Qc;
  sum_average_execution_time : Qc;
  sum_capabilities : list string
}.

Record QueueSummary := mkQueueSummary {
  pending_tasks : nat;
  q_active_tasks : nat;
  q_completed_tasks : nat;
  tasks_by_priority : list (TaskPriority * nat)
}.

(** [{**self.stats, ...}]: the five entries of [stats] and four more. *)
Record OverallStats := mkOverallStats {
  o_stats : Stats.t;
  runtime_seconds : Qc;
  tasks_per_minute : Qc;
  active_agents : nat;
  o_idle_agents : nat
}.

Record StatusReport := mkStatusReport {
  r_agents : list (string * AgentSummary);
  r_queue : QueueSummary;
  r_statistics : OverallStats;
  r_timestamp : Qc
}.

Definition agent_summary (agent : Agent.t) : AgentSummary :=
  mkAgentSummary
    (Agent.name agent)
    (status_value (Agent.status agent))
    (Agent.completed_tasks agent)
    (Agent.failed_tasks agent)
    (Qc_of_nat (Agent.completed_tasks agent)
     / Qc_of_nat
         (Nat.max (Agent.completed_tasks agent + Agent.failed_tasks agent) 1)
     * Qc_of_Z 100)%Qc
    (Agent.total_execution_time agent
     / Qc_of_nat (Nat.max (Agent.completed_tasks agent) 1))%Qc
    (Agent.capabilities agent).

Definition queue_summary (m : AgentManager) : QueueSummary :=
  mkQueueSummary
    (length (task_queue m))
    (size (active_tasks m))
    (length (completed_tasks m))
    ((fun p => (p, length (filter (fun t => Task.priority t = p)
                             (task_queue m))))
       <$> [LOW; NORMAL; HIGH; CRITICAL]).

Definition overall_stats (m : AgentManager) (current_time : Qc)
    : OverallStats :=
  let runtime := (current_time - Stats.start_time (stats m))%Qc in
  mkOverallStats
    (stats m)
    runtime
    (Qc_of_nat (Stats.completed_tasks (stats m))
     / py_max (runtime / Qc_of_Z 60) (Qc_of_Z 1))%Qc
    (length (filter (fun a => Agent.status a = BUSY) (dict_values (agents m))))
    (length (filter (fun a => Agent.status a = IDLE) (dict_values (agents m)))).

Definition get_status_report (m : AgentManager) (current_time : Qc)
    : StatusReport :=
  mkStatusReport
    (prod_map id agent_summary <$> agents m)
    (queue_summary m)
    (overall_stats m current_time)
    current_time.

(** ** Initialisation (source lines 137-178) *)

Definition agent_configs : list (string * list string) :=
  [ ("WebScraper", ["scraping"; "data_extraction"; "screenshots"]);
    ("FormFiller", ["form_filling"; "authentication"; "validation"]);
    ("Tester", ["testing"; "validation"; "performance_monitoring"]);
    ("Monitor", ["monitoring"; "health_checks"; "reporting"]);
    ("GeneralPurpose", ["general"; "backup"; "flexible"]) ].

(** The body of the [for i in range(...)] loop; [now] is the reading of the
    clock stored in [last_activity]. *)
Definition create_agent (m : AgentManager) (i : nat) (now : Qc)
    : AgentManager :=
  match agent_configs !! i with
  | None => m
  | Some config =>
      let agent_id := "agent_" +:+ pretty (i + 1)%nat in
      let agent :=
        Agent.mk agent_id config.1 IDLE None 0 0 (Qc_of_Z 0) now config.2 1 in
      set_agents (dict_set (agents m) agent_id agent) m
  end.

(** [range(min(self.max_agents, len(agent_configs)))]: empty for a bound
    that is not positive. *)
Definition init_range (m : AgentManager) : list nat :=
  seq 0 (Z.to_nat (Z.min (max_agents m) (Z.of_nat (length agent_configs)))).

(** [initialize]; the [i]-th agent reads [clock i], [now_start] is the
    reading stored in [stats["start_time"]]. *)
Definition initialize (m : AgentManager) (clock : nat -> Qc) (now_start : Qc)
    : AgentManager :=
  let m := foldl (fun m i => create_agent m i (clock i)) m (init_range m) in
  set_stats (Stats.set_start_time now_start (stats m)) m.

(** * Vocabulary of the properties *)

(** The state in which [initialize] leaves a new agent. *)
Definition fresh_agent (a : Agent.t) : Prop :=
  Agent.status a = IDLE
  ∧ Agent.current_task a = None
  ∧ Agent.completed_tasks a = 0%nat
  ∧ Agent.failed_tasks a = 0%nat
  ∧ Agent.total_execution_time a = Qc_of_Z 0.

(** The two conditions under which a sweep at [now] rewrites an agent. *)
Definition stuck (now : Qc) (a : Agent.t) : Prop :=
  Agent.status a = BUSY ∧ (Qc_of_Z 30 < now - Agent.last_activity a)%Qc.

Definition recoverable (now : Qc) (a : Agent.t) : Prop :=
  Agent.status a = ERROR ∧ (Qc_of_Z 10 < now - Agent.last_activity a)%Qc.

(** [t1] may stand in front of [t2] in a queue sorted by descending
    priority. *)
Definition prio_ge (t1 t2 : Task.t) : Prop :=
  (priority_value (Task.priority t2) <= priority_value (Task.priority t1))%Z.

(** The tasks of a batch as [add_task] stores them: the [j]-th task of the
    batch that starts at clock index [i] carries [created_at = clock (i + j)]. *)
Fixpoint stamped (i : nat) (tasks : list Task.t) (clock : nat -> Qc)
    : list Task.t :=
  match tasks with
  | [] => []
  | task :: rest =>
      Task.set_created_at (Some (clock i)) task :: stamped (S i) rest clock
  end.

(** The tasks of priority [p], in the order they have in [l]. *)
Definition of_priority (p : TaskPriority) (l : list Task.t) : list Task.t :=
  filter (fun t => Task.priority t = p) l.

(** *** The score in the words of the specification *)

(** The required capabilities of a task, as a set. *)
Definition required (task : Task.t) : gset string :=
  list_to_set (_extract_task_requirements task).

(** 1. Capability match: 10 for each capability of the agent that is
    required. *)
Definition capability_points (agent : Agent.t) (task : Task.t) : Qc :=
  (Qc_of_Z 10
   * Qc_of_nat (size ((list_to_set (Agent.capabilities agent) : gset string)
                      ∩ required task)))%Qc.

(** 2. Freshness: +5 with no completed task, else -0.1 for each. *)
Definition freshness_points (agent : Agent.t) : Qc :=
  if decide (Agent.completed_tasks agent = 0%nat) then Qc_of_Z 5
  else (- (one_tenth * Qc_of_nat (Agent.completed_tasks agent)))%Qc.

(** 3. Reliability: 5 times the success ratio whenever
    [completed + failed > 0]. *)
Definition reliability_points (agent : Agent.t) : Qc :=
  if decide (0 < Agent.completed_tasks agent + Agent.failed_tasks agent)%nat
  then (Qc_of_Z 5
        * (Qc_of_nat (Agent.completed_tasks agent)
           / Qc_of_nat (Agent.completed_tasks agent
                        + Agent.failed_tasks agent)))%Qc
  else Qc_of_Z 0.

Definition score_spec (agent : Agent.t) (task : Task.t) : Qc :=
  (capability_points agent task + freshness_points agent
   + reliability_points agent)%Qc.

(** The lowered description of the task contains the keyword. *)
Definition mentions (keyword : string) (task : Task.t) : Prop :=
  contains keyword (lower (Task.description task)) = true.

(** *** Selection *)

(** The score of the candidate named [c]; the default is never read for a
    candidate that is a key of the dictionary. *)
Definition score_of (ags : list (string * Agent.t)) (task : Task.t)
    (c : string) : Qc :=
  from_option (fun a => agent_score a task) (Qc_of_Z 0) (dict_get ags c).

(** [c] is the first of [cands] to reach their maximal score. *)
Definition first_max (ags : list (string * Agent.t)) (task : Task.t)
    (cands : list string) (c : string) : Prop :=
  ∃ pre post,
    cands = pre ++ c :: post
    ∧ Forall (fun c' => (score_of ags task c' < score_of ags task c)%Qc) pre
    ∧ Forall (fun c' => (score_of ags task c' <= score_of ags task c)%Qc) post.

(** *** A pool of one agent that has completed a hundred tasks

    [max_agents = 1], agent [agent_1] (the "WebScraper" of the roster) is
    idle with 100 completed and no failed task; the queue holds one task
    whose description names none of the keywords. *)

Definition worn_scraper : Agent.t :=
  Agent.mk "agent_1" "WebScraper" IDLE None 100 0 (Qc_of_Z 250)
    (Qc_of_Z 1000) ["scraping"; "data_extraction"; "screenshots"] 1.

Definition health_check : Task.t :=
  Task.set_created_at (Some (Qc_of_Z 1001))
    (Task.new "task-101" "Monitor Health Check"
       "Check system health and availability" "https://example.com/health"
       ["ping"; "check_status"; "log_results"] LOW 10 1).

Definition worn_pool : AgentManager :=
  mkManager 1 [("agent_1", worn_scraper)] [health_check] [] ∅ true
    (Stats.mk 101 100 0 (Qc_of_Z 0) (Qc_of_Z 0)).

(** *** Agent invariant *)

(** [current_task] is set exactly when the agent is BUSY. *)
Definition busy_iff_current (a : Agent.t) : Prop :=
  Agent.current_task a ≠ None ↔ Agent.status a = BUSY.

(** *** Task outcome *)

(** Exactly one of [result] and [error] is populated. *)
Definition result_xor_error (t : Task.t) : Prop :=
  (Task.result t ≠ None ∧ Task.error t = None)
  ∨ (Task.result t = None ∧ Task.error t ≠ None).

(** *** A run of a pool of one agent

    The manager is built with [max_agents = 1] and initialised at time 0; a
    scraping task is submitted at time 10 and dispatched at time 20. *)

Definition scrape_job : Task.t :=
  Task.new "task-1" "Scrape Product Data"
    "Extract product information from e-commerce site"
    "https://example-shop.com/products"
    ["navigate"; "extract_data"; "screenshot"] HIGH 30 2.

Definition form_job : Task.t :=
  Task.new "task-2" "Fill Registration Form"
    "Complete user registration form with test data"
    "https://example.com/register" ["fill_form"; "submit"; "verify"]
    NORMAL 20 1.

Definition pool_ready : AgentManager :=
  initialize (new_manager 1) (fun _ => Qc_of_Z 0) (Qc_of_Z 0).

Definition pool_busy : AgentManager :=
  _task_distributor (add_task pool_ready scrape_job (Qc_of_Z 10))
    (fun _ => (Qc_of_Z 20, Qc_of_Z 20)).

(** The task object the spawned [_execute_task] holds. *)
Definition scrape_job_started : Task.t :=
  Task.set_started_at (Some (Qc_of_Z 20))
    (Task.set_assigned_agent (Some "agent_1")
       (Task.set_created_at (Some (Qc_of_Z 10)) scrape_job)).

(** No completion arrives: the sweep at time 55 reclaims the agent, a second
    task is submitted at time 56 and dispatched to it at time 57. *)
Definition pool_reclaimed : AgentManager :=
  _agent_monitor pool_busy (Qc_of_Z 55).

Definition pool_reassigned : AgentManager :=
  _task_distributor (add_task pool_reclaimed form_job (Qc_of_Z 56))
    (fun _ => (Qc_of_Z 57, Qc_of_Z 57)).

(** The dictionaries the mock executor returns (source lines 95-107). *)
Definition mock_success : ExecResult :=
  mkExecResult (Some true) None (Some (Qc_of_Z 5))
    (Some "Mock result for task Scrape Product Data").

Definition mock_failure : ExecResult :=
  mkExecResult (Some false) (Some "Mock error in task Scrape Product Data")
    (Some (Qc_of_Z 5)) None.

(** The first task completes in time, five seconds after its dispatch. *)
Definition pool_done : AgentManager :=
  _execute_task pool_busy scrape_job_started "agent_1" (Returned mock_success)
    (Qc_of_Z 5) (Qc_of_Z 25) (Qc_of_Z 25).

(** The field [f] of the agent stored under [k]. *)
Definition agent_field {A : Type} (f : Agent.t -> A) (m : AgentManager)
    (k : string) : option A :=
  f <$> dict_get (agents m) k.

(** * The rest of the module *)

(** ** Mock executor (source lines 72-114) *)

Module MockBrowserAgent.
Record t := mk {
  id : string;
  capabilities : list string;
  is_busy : bool
}.

(** [MockBrowserAgent.__init__] *)
Definition new (agent_id : string) (caps : list string) : t :=
  mk agent_id caps false.

(** The dictionary [execute_task] builds: [success] and [execution_time]
    are always present, the other keys in one of the two shapes. *)
Record result := mk_result {
  success : bool;
  execution_time : Z;
  actions_completed : option nat;
  data : option string;
  screenshots : option (list string);
  error : option string
}.

(** [0.9 if task.priority != TaskPriority.CRITICAL else 0.95] *)
Definition success_rate (task : Task.t) : Qc :=
  if decide (Task.priority task ≠ CRITICAL) then Q2Qc (9 # 10)
  else Q2Qc (95 # 100).

(** [execute_task] (source lines 80-114) on a well-typed task, where the
    [try] block cannot raise; [frac] is the reading [time.time() % 1].  The
    agent comes back with [is_busy] reset. *)
Definition execute_task (self : t) (task : Task.t) (frac : Qc)
    : t * result :=
  let execution_time := Z.min (Task.timeout task) 5 in
  let success := bool_decide (frac < success_rate task)%Qc in
  let result :=
    if success then
      mk_result true execution_time
        (Some (length (Task.actions task)))
        (Some ("Mock result for task " +:+ Task.name task))
        (Some ((fun i : nat =>
                  "screenshot_" +:+ Task.id task +:+ "_" +:+ pretty i
                  +:+ ".png") <$> seq 0 2))
        None
    else
      mk_result false execution_time None None None
        (Some ("Mock error in task " +:+ Task.name task)) in
  (mk (id self) (capabilities self) false, result).

(** The keys of the dictionary that [ExecResult] keeps. *)
Definition to_exec_result (r : result) : ExecResult :=
  mkExecResult (Some (success r)) (error r)
    (Some (Qc_of_Z (execution_time r))) (data r).
End MockBrowserAgent.

(** ** Starting and stopping (source lines 198-217) *)

(** [start_execution] up to the point where it hands over to the three
    loops: a running manager is left as it is. *)
Definition start_execution (m : AgentManager) : AgentManager :=
  if is_running m then m else set_is_running true m.

(** [stop_execution] *)
Definition stop_execution (m : AgentManager) : AgentManager :=
  set_is_running false m.

(** ** Runs

    The coroutines of the manager yield only at their [await]s: a turn of
    one of the three loops, from the test of [self.is_running] to the sleep
    that ends it, runs alone, and so do [add_task], [start_execution],
    [stop_execution] and the part of [_execute_task] that follows the
    awaited executor.  A run of the manager is a sequence of such events, in
    any order. *)

Inductive Event :=
| Submit (task : Task.t) (now : Qc)
| Start
| Stop
| Dispatch (clock : nat -> Qc * Qc)
| Sweep (now : Qc)
| Track
| Complete (task : Task.t) (agent_id : string) (out : ExecOutcome)
    (execution_time now_completed now_activity : Qc).

Definition step (m : AgentManager) (e : Event) : AgentManager :=
  match e with
  | Submit task now => add_task m task now
  | Start => start_execution m
  | Stop => stop_execution m
  | Dispatch clock => if is_running m then _task_distributor m clock else m
  | Sweep now => if is_running m then _agent_monitor m now else m
  | Track => if is_running m then _performance_tracker m else m
  | Complete task agent_id out execution_time now_completed now_activity =>
      _execute_task m task agent_id out execution_time now_completed
        now_activity
  end.

Definition run (m : AgentManager) (events : list Event) : AgentManager :=
  foldl step m events.

(** *** Vocabulary of the run properties *)

(** [d.keys()] *)
Definition dict_keys {V : Type} (d : list (string * V)) : list string :=
  fst <$> d.

(** The completion events of a run address agents of the roster [keys]. *)
Definition addresses (keys : list string) (e : Event) : Prop :=
  match e with
  | Complete _ agent_id _ _ _ _ => agent_id ∈ keys
  | _ => True
  end.

(** Sums of the per-agent counters. *)
Definition agents_completed (ags : list (string * Agent.t)) : nat :=
  sum_list (Agent.completed_tasks <$> dict_values ags).

Definition agents_failed (ags : list (string * Agent.t)) : nat :=
  sum_list (Agent.failed_tasks <$> dict_values ags).

(** The number of [Submit] events. *)
Fixpoint submissions (events : list Event) : nat :=
  match events with
  | [] => 0
  | Submit _ _ :: rest => S (submissions rest)
  | _ :: rest => submissions rest
  end.

(** What never changes in an agent. *)
Definition agent_identity (a : Agent.t)
    : string * string * list string * nat :=
  (Agent.id a, Agent.name a, Agent.capabilities a,
   Agent.max_concurrent_tasks a).

(** A task as the active map should hold it. *)
Definition dispatched (keys : list string) (k : string) (t : Task.t) : Prop :=
  Task.id t = k
  ∧ Task.started_at t ≠ None
  ∧ ∃ agent_id, Task.assigned_agent t = Some agent_id ∧ agent_id ∈ keys.

(** A task as the completed list should hold it. *)
Definition finished (t : Task.t) : Prop :=
  Task.completed_at t ≠ None
  ∧ (Task.result t ≠ None ∨ Task.error t ≠ None).

(** The agents of the manager reduced to what never changes. *)
Definition roster (m : AgentManager)
    : list (string * (string * string * list string * nat)) :=
  prod_map id agent_identity <$> agents m.

(** The invariants of a run. *)
Definition counts_agree (m : AgentManager) : Prop :=
  (Stats.completed_tasks (stats m) + Stats.failed_tasks (stats m))%nat
  = length (completed_tasks m).

Definition counters_agree (m : AgentManager) : Prop :=
  agents_completed (agents m) = Stats.completed_tasks (stats m)
  ∧ agents_failed (agents m) = Stats.failed_tasks (stats m).

Definition queue_ordered (m : AgentManager) : Prop :=
  StronglySorted prio_ge (task_queue m)
  ∧ Forall (fun t => Task.created_at t ≠ None) (task_queue m).

Definition active_dispatched (m : AgentManager) : Prop :=
  map_Forall (dispatched (dict_keys (agents m))) (active_tasks m).

(** Every agent of the pool has completed at most ten tasks. *)
Definition light_pool (m : AgentManager) : Prop :=
  ∀ k a, dict_get (agents m) k = Some a ->
         (Agent.completed_tasks a <= 10)%nat.

(** The key [f"agent_{i+1}"] and the agent [initialize] stores under it. *)
Definition agent_key (i : nat) : string := "agent_" +:+ pretty (i + 1)%nat.

Definition new_agent (i : nat) (config : string * list string) (now : Qc)
    : Agent.t :=
  Agent.mk (agent_key i) config.1 IDLE None 0 0 (Qc_of_Z 0) now config.2 1.

(** The half of the agent invariant that every event keeps: a BUSY agent
    has a current task. *)
Definition busy_has_task (a : Agent.t) : Prop :=
  Agent.status a = BUSY -> Agent.current_task a ≠ None.

(** * Properties *)

(** ** Initialisation *)

Lemma init_range_small (n : Z) :
  (0 <= n < 5)%Z -> init_range (new_manager n) = seq 0 (Z.to_nat n).
Proof.
  intros Hn. unfold init_range.
  change (Z.of_nat (length agent_configs)) with 5%Z. simpl.
  replace (Z.min n 5) with n by lia. reflexivity.
Qed.

Lemma init_range_large (n : Z) :
  (5 <= n)%Z -> init_range (new_manager n) = [0; 1; 2; 3; 4]%nat.
Proof.
  intros Hn. unfold init_range.
  change (Z.of_nat (length agent_configs)) with 5%Z. simpl.
  replace (Z.min n 5) with 5%Z by lia. reflexivity.
Qed.

Lemma initialize_agents (m : AgentManager) (clock : nat -> Qc) (now : Qc) :
  agents (initialize m clock now)
  = agents (foldl (fun m i => create_agent m i (clock i)) m (init_range m)).
Proof. reflexivity. Qed.

(** C10. For a requested pool size [n] (a count, so not negative),
    [initialize] on a new manager creates exactly [min(n, 5)] agents, five
    when [n] exceeds the roster, under the keys [agent_1], [agent_2], ... in
    this order, and each of them is idle, has no current task and has zero
    completed count, failed count and execution time. *)
Theorem initialize_creates_min_roster (n : Z) (clock : nat -> Qc) (now : Qc) :
  (0 <= n)%Z ->
  let m := initialize (new_manager n) clock now in
  Z.of_nat (length (agents m)) = Z.min n 5
  ∧ ((5 < n)%Z -> length (agents m) = 5%nat)
  ∧ fst <$> agents m
    = take (length (agents m))
        ["agent_1"; "agent_2"; "agent_3"; "agent_4"; "agent_5"]
  ∧ Forall (fun kv => Agent.id kv.2 = kv.1 ∧ fresh_agent kv.2) (agents m).
Proof.
  intros Hn m. subst m. rewrite initialize_agents.
  assert (Hcases : n = 0%Z ∨ n = 1%Z ∨ n = 2%Z ∨ n = 3%Z ∨ n = 4%Z
                   ∨ (5 <= n)%Z) by lia.
  destruct Hcases as [->|[->|[->|[->|[->|Hbig]]]]].
  1-5: rewrite init_range_small by lia;
       match goal with |- context [agents ?x] =>
         remember (agents x) as ags eqn:E end;
       cbn in E; subst ags; (split; [reflexivity|]); (split; [lia|]);
       (split; [reflexivity|]); repeat constructor.
  rewrite init_range_large by lia.
  match goal with |- context [agents ?x] =>
    remember (agents x) as ags eqn:E end.
  cbn in E. subst ags. simpl length.
  split; [lia|]. split; [reflexivity|]. split; [reflexivity|].
  repeat constructor.
Qed.

Lemma initialize_creates_min_roster_witness :
  (0 <= 7)%Z
  ∧ length (agents (initialize (new_manager 7) (fun _ => Qc_of_Z 3)
                      (Qc_of_Z 4))) = 5%nat.
Proof.
  split; [lia|].
  apply (initialize_creates_min_roster 7 (fun _ => Qc_of_Z 3) (Qc_of_Z 4));
    lia.
Defined.

(** ** Health monitor *)

Lemma monitor_agent_stuck now a :
  stuck now a ->
  monitor_agent now a = Agent.set_current_task None (Agent.set_status IDLE a).
Proof.
  intros [Hs Ht]. unfold monitor_agent. rewrite Hs.
  by rewrite bool_decide_eq_true_2.
Qed.

Lemma monitor_agent_recoverable now a :
  recoverable now a -> monitor_agent now a = Agent.set_status IDLE a.
Proof.
  intros [Hs Ht]. unfold monitor_agent. rewrite Hs.
  by rewrite bool_decide_eq_true_2.
Qed.

Lemma monitor_agent_other now a :
  ¬ stuck now a -> ¬ recoverable now a -> monitor_agent now a = a.
Proof.
  unfold stuck, recoverable, monitor_agent. intros Hs Hr.
  destruct (Agent.status a); try reflexivity.
  - rewrite bool_decide_eq_false_2; [reflexivity|]. intros H. by apply Hs.
  - rewrite bool_decide_eq_false_2; [reflexivity|]. intros H. by apply Hr.
Qed.

(** C8. One sweep of the health monitor at time [now] keeps every agent
    under its key and in its place; an agent that is BUSY with
    [now - last_activity > 30] becomes IDLE with no current task, an agent in
    ERROR with [now - last_activity > 10] becomes IDLE, and every other agent
    (IDLE, OFFLINE, or within its threshold) is left as it was.  The queue,
    the active map, the completed list and the statistics are the same
    before and after: no task is touched. *)
Theorem agent_monitor_sweep (m : AgentManager) (now : Qc) :
  let m' := _agent_monitor m now in
  task_queue m' = task_queue m
  ∧ active_tasks m' = active_tasks m
  ∧ completed_tasks m' = completed_tasks m
  ∧ stats m' = stats m
  ∧ length (agents m') = length (agents m)
  ∧ ∀ (i : nat) (k : string) (a : Agent.t),
      agents m !! i = Some (k, a) ->
      ∃ a', agents m' !! i = Some (k, a')
        ∧ (stuck now a ->
           a' = Agent.set_current_task None (Agent.set_status IDLE a))
        ∧ (recoverable now a -> a' = Agent.set_status IDLE a)
        ∧ (¬ stuck now a -> ¬ recoverable now a -> a' = a)
        ∧ (Agent.status a = IDLE ∨ Agent.status a = OFFLINE -> a' = a).
Proof.
  intros m'. repeat (split; [reflexivity|]).
  split; [apply length_fmap|].
  intros i k a Hi. exists (monitor_agent now a). split.
  - subst m'. unfold _agent_monitor. simpl.
    rewrite list_lookup_fmap, Hi. reflexivity.
  - split; [apply monitor_agent_stuck|].
    split; [apply monitor_agent_recoverable|].
    split; [apply monitor_agent_other|].
    intros [H|H]; unfold monitor_agent; by rewrite H.
Qed.

Lemma agent_monitor_sweep_witness :
  let a :=
    Agent.mk "agent_1" "WebScraper" BUSY (Some "t1") 0 0 (Qc_of_Z 0)
      (Qc_of_Z 100) ["scraping"] 1 in
  let m :=
    mkManager 1 [("agent_1", a)] [] [] ∅ true
      (Stats.mk 1 0 0 (Qc_of_Z 0) (Qc_of_Z 0)) in
  stuck (Qc_of_Z 131) a
  ∧ agents (_agent_monitor m (Qc_of_Z 131)) !! 0%nat
    = Some ("agent_1", Agent.set_current_task None (Agent.set_status IDLE a)).
Proof.
  intros a m.
  assert (Hs : stuck (Qc_of_Z 131) a) by (split; [reflexivity|by vm_compute]).
  split; [exact Hs|].
  destruct (agent_monitor_sweep m (Qc_of_Z 131)) as (_ & _ & _ & _ & _ & H).
  destruct (H 0%nat "agent_1" a eq_refl) as (a' & Hl & Hst & _).
  rewrite Hl, (Hst Hs). reflexivity.
Defined.

(** ** Task queue *)

Lemma insert_desc_perm (x : Task.t) (l : list Task.t) :
  insert_desc x l ≡ₚ x :: l.
Proof.
  induction l as [|y l IH]; simpl; [done|].
  destruct (sort_key x <? sort_key y)%Z; [|done].
  rewrite IH. apply Permutation_swap.
Qed.

Lemma sort_desc_perm (l : list Task.t) : sort_desc l ≡ₚ l.
Proof.
  induction l as [|x l IH]; simpl; [done|].
  unfold sort_desc in *. simpl. by rewrite insert_desc_perm, IH.
Qed.

Lemma insert_desc_sorted (x : Task.t) (l : list Task.t) :
  StronglySorted prio_ge l -> StronglySorted prio_ge (insert_desc x l).
Proof.
  induction 1 as [|y l Hl IH Hy]; simpl.
  - repeat constructor.
  - destruct (sort_key x <? sort_key y)%Z eqn:Hlt.
    + constructor; [exact IH|].
      rewrite insert_desc_perm. constructor; [|exact Hy].
      unfold prio_ge, sort_key in *. lia.
    + constructor; [by constructor|].
      assert (Hxy : prio_ge x y) by (unfold prio_ge, sort_key in *; lia).
      constructor; [exact Hxy|].
      eapply Forall_impl; [exact Hy|].
      unfold prio_ge in *. intros z Hz. lia.
Qed.

Lemma sort_desc_sorted (l : list Task.t) : StronglySorted prio_ge (sort_desc l).
Proof.
  induction l as [|x l IH]; [constructor|].
  apply insert_desc_sorted, IH.
Qed.

Lemma of_priority_cons (p : TaskPriority) (x : Task.t) (l : list Task.t) :
  of_priority p (x :: l)
  = if decide (Task.priority x = p) then x :: of_priority p l
    else of_priority p l.
Proof. unfold of_priority. by rewrite filter_cons. Qed.

(** Insertion never lets a task overtake another of its own priority. *)
Lemma insert_desc_stable (p : TaskPriority) (x : Task.t) (l : list Task.t) :
  of_priority p (insert_desc x l) = of_priority p (x :: l).
Proof.
  induction l as [|y l IH]; simpl; [done|].
  destruct (sort_key x <? sort_key y)%Z eqn:Hlt; [|done].
  rewrite (of_priority_cons p y), IH, !of_priority_cons.
  destruct (decide (Task.priority y = p)) as [Hy|Hy]; [|done].
  destruct (decide (Task.priority x = p)) as [Hx|Hx]; [|done].
  unfold sort_key in Hlt. rewrite Hx, Hy in Hlt. lia.
Qed.

Lemma sort_desc_stable (p : TaskPriority) (l : list Task.t) :
  of_priority p (sort_desc l) = of_priority p l.
Proof.
  induction l as [|x l IH]; [done|].
  change (sort_desc (x :: l)) with (insert_desc x (sort_desc l)).
  by rewrite insert_desc_stable, !of_priority_cons, IH.
Qed.

Lemma add_task_queue (m : AgentManager) (task : Task.t) (now : Qc) :
  task_queue (add_task m task now)
  = sort_desc (task_queue m ++ [Task.set_created_at (Some now) task]).
Proof. reflexivity. Qed.

Lemma of_priority_app (p : TaskPriority) (l1 l2 : list Task.t) :
  of_priority p (l1 ++ l2) = of_priority p l1 ++ of_priority p l2.
Proof. apply filter_app. Qed.

Lemma add_tasks_from_perm (tasks : list Task.t) :
  ∀ (i : nat) (m : AgentManager) (clock : nat -> Qc),
    task_queue (add_tasks_from i m tasks clock)
    ≡ₚ task_queue m ++ stamped i tasks clock.
Proof.
  induction tasks as [|t tasks IH]; intros i m clock; simpl.
  - by rewrite app_nil_r.
  - rewrite IH, add_task_queue, sort_desc_perm.
    by rewrite <- app_assoc.
Qed.

Lemma add_tasks_from_stable (p : TaskPriority) (tasks : list Task.t) :
  ∀ (i : nat) (m : AgentManager) (clock : nat -> Qc),
    of_priority p (task_queue (add_tasks_from i m tasks clock))
    = of_priority p (task_queue m ++ stamped i tasks clock).
Proof.
  induction tasks as [|t tasks IH]; intros i m clock; simpl.
  - by rewrite app_nil_r.
  - rewrite IH, of_priority_app, add_task_queue, sort_desc_stable.
    by rewrite <- of_priority_app, <- app_assoc.
Qed.

Lemma add_tasks_from_sorted (tasks : list Task.t) :
  ∀ (i : nat) (m : AgentManager) (clock : nat -> Qc),
    StronglySorted prio_ge (task_queue m) ->
    StronglySorted prio_ge (task_queue (add_tasks_from i m tasks clock)).
Proof.
  induction tasks as [|t tasks IH]; intros i m clock Hm; simpl; [done|].
  apply IH. rewrite add_task_queue. apply sort_desc_sorted.
Qed.
(** C6. [add_task] appends the task (stamped with its creation time) and
    re-sorts the whole queue: the new queue is a permutation of the old one
    with the task appended, it is sorted by descending priority, and the
    tasks of each priority keep the order they had, the new one last among
    its equals.  So the head, which is what the dispatcher pops, has a
    priority no lower than any task behind it, and after a batch submitted
    to a new manager the tasks of one priority leave in submission order.
    Tasks submitted as LOW, CRITICAL, NORMAL are queued, and so dequeued, as
    CRITICAL, NORMAL, LOW. *)
Theorem add_task_stable_priority_order
    (m : AgentManager) (task : Task.t) (now : Qc)
    (n : Z) (tasks : list Task.t) (clock : nat -> Qc) (a b c : Task.t) :
  let task' := Task.set_created_at (Some now) task in
  let q := task_queue (add_task m task now) in
  let qb := task_queue (add_tasks_batch (new_manager n) tasks clock) in
  (q ≡ₚ task_queue m ++ [task']
   ∧ StronglySorted prio_ge q
   ∧ (∀ p, of_priority p q
           = of_priority p (task_queue m) ++ of_priority p [task']))
  ∧ (∀ t rest, q = t :: rest -> Forall (prio_ge t) rest)
  ∧ (qb ≡ₚ stamped 0 tasks clock
     ∧ StronglySorted prio_ge qb
     ∧ (∀ p, of_priority p qb = of_priority p (stamped 0 tasks clock)))
  ∧ (Task.priority a = LOW -> Task.priority b = CRITICAL ->
     Task.priority c = NORMAL ->
     task_queue (add_tasks_batch (new_manager n) [a; b; c] clock)
     = [Task.set_created_at (Some (clock 1%nat)) b;
        Task.set_created_at (Some (clock 2%nat)) c;
        Task.set_created_at (Some (clock 0%nat)) a]).
Proof.
  intros task' q qb.
  assert (Hsorted : StronglySorted prio_ge q).
  { subst q. rewrite add_task_queue. apply sort_desc_sorted. }
  split; [|split; [|split]].
  - split; [|split; [exact Hsorted|]].
    + subst q. rewrite add_task_queue. apply sort_desc_perm.
    + intros p. subst q. rewrite add_task_queue, sort_desc_stable.
      apply of_priority_app.
  - intros t rest Hq. rewrite Hq in Hsorted.
    by apply StronglySorted_inv in Hsorted as [_ H].
  - subst qb. unfold add_tasks_batch. split; [|split].
    + by rewrite add_tasks_from_perm.
    + apply add_tasks_from_sorted. constructor.
    + intros p. by rewrite add_tasks_from_stable.
  - destruct a, b, c. simpl. intros -> -> ->. reflexivity.
Qed.

Lemma add_task_stable_priority_order_witness :
  let a := Task.new "t-low" "Monitor Health Check" "Check system health"
             "https://example.com/health" ["ping"] LOW 10 1 in
  let b := Task.new "t-crit" "Performance Test" "Run performance tests"
             "https://example.com/landing" ["load_test"] CRITICAL 60 3 in
  let c := Task.new "t-norm" "Fill Registration Form" "Complete form"
             "https://example.com/register" ["fill_form"] NORMAL 20 1 in
  Task.id <$> task_queue
                (add_tasks_batch (new_manager 3) [a; b; c]
                   (fun i => Qc_of_nat i))
  = ["t-crit"; "t-norm"; "t-low"].
Proof.
  intros a b c.
  destruct (add_task_stable_priority_order (new_manager 3) a (Qc_of_Z 0) 3
              [] (fun i => Qc_of_nat i) a b c) as (_ & _ & _ & H).
  rewrite (H eq_refl eq_refl eq_refl). reflexivity.
Defined.

(** ** Selector score *)

Lemma Qc_of_nat_0 : Qc_of_nat 0 = 0%Qc.
Proof. apply Z2Qc_inj_0. Qed.

(** The reliability term of the source is guarded by [completed > 0], the
    one of the specification by [completed + failed > 0]: where the guards
    differ the ratio is [0 / failed], which adds nothing. *)
Lemma reliability_points_no_completed (agent : Agent.t) :
  Agent.completed_tasks agent = 0%nat -> reliability_points agent = 0%Qc.
Proof.
  intros H. unfold reliability_points. rewrite H.
  destruct (decide _); [|apply Z2Qc_inj_0].
  rewrite Qc_of_nat_0. unfold Qcdiv. ring.
Qed.

Lemma agent_score_spec (agent : Agent.t) (task : Task.t) :
  agent_score agent task = score_spec agent task.
Proof.
  unfold agent_score, score_spec, capability_points, matching_capabilities,
    required.
  destruct (Agent.completed_tasks agent) as [|c] eqn:Hc.
  - rewrite reliability_points_no_completed by exact Hc.
    unfold freshness_points. rewrite Hc. simpl. rewrite Z2Qc_inj_0. ring.
  - unfold freshness_points, reliability_points. rewrite Hc.
    change (S c =? 0)%nat with false. change (0 <? S c)%nat with true.
    destruct (decide (S c = 0%nat)) as [|_]; [lia|].
    destruct (decide (0 < S c + Agent.failed_tasks agent)%nat) as [_|];
      [|lia].
    cbv zeta. cbv iota. rewrite Z2Qc_inj_0. ring.
Qed.

Lemma requirements_keywords (task : Task.t) :
  let req := _extract_task_requirements task in
  ("form_filling" ∈ req ↔ mentions "form" task)
  ∧ ("scraping" ∈ req ↔ mentions "scrape" task ∨ mentions "extract" task)
  ∧ ("testing" ∈ req ↔ mentions "test" task)
  ∧ ("monitoring" ∈ req ↔ mentions "monitor" task)
  ∧ ("general" ∈ req
     ↔ ¬ (mentions "form" task ∨ mentions "scrape" task
          ∨ mentions "extract" task ∨ mentions "test" task
          ∨ mentions "monitor" task))
  ∧ (req = ["general"] ∨ req ⊆ ["form_filling"; "scraping"; "testing";
                                "monitoring"])
  ∧ NoDup req.
Proof.
  unfold mentions, _extract_task_requirements.
  destruct (contains "form" _), (contains "scrape" _), (contains "extract" _),
    (contains "test" _), (contains "monitor" _); simpl;
    split_and!; compute_done.
Qed.

(** C7. The score the selector gives a candidate is
    [10 * |capabilities ∩ required|], plus 5 when the agent has no completed
    task and [-0.1 * completed] otherwise, plus
    [5 * completed / (completed + failed)] whenever [completed + failed > 0];
    [required] is read off the lowered description: "form" gives
    [form_filling], "scrape" or "extract" gives [scraping], "test" gives
    [testing], "monitor" gives [monitoring], and [general] stands alone when
    no keyword occurs. *)
Theorem agent_score_formula (agent : Agent.t) (task : Task.t) :
  agent_score agent task = score_spec agent task
  ∧ ("form_filling" ∈ required task ↔ mentions "form" task)
  ∧ ("scraping" ∈ required task
     ↔ mentions "scrape" task ∨ mentions "extract" task)
  ∧ ("testing" ∈ required task ↔ mentions "test" task)
  ∧ ("monitoring" ∈ required task ↔ mentions "monitor" task)
  ∧ ("general" ∈ required task
     ↔ ¬ (mentions "form" task ∨ mentions "scrape" task
          ∨ mentions "extract" task ∨ mentions "test" task
          ∨ mentions "monitor" task))
  ∧ (required task = {["general"]}
     ∨ required task ⊆ {["form_filling"; "scraping"; "testing"; "monitoring"]}).
Proof.
  split; [apply agent_score_spec|].
  destruct (requirements_keywords task) as (Hf & Hs & Ht & Hm & Hg & Hall & _).
  unfold required. rewrite !elem_of_list_to_set.
  split_and!; try assumption.
  destruct Hall as [->|Hsub]; [left|right].
  - simpl. apply right_id_L, _.
  - intros x. rewrite elem_of_list_to_set. intros Hx.
    specialize (Hsub x Hx). set_solver.
Qed.

(** ** Selector *)

Lemma select_loop_spec (ags : list (string * Agent.t)) (task : Task.t)
    (cands : list string) :
  ∀ (best : option string) (bs : Qc),
    Forall (fun c => is_Some (dict_get ags c)) cands ->
    ∃ r, select_loop ags task cands best bs = Return r
      ∧ ((r = best
          ∧ Forall (fun c => (score_of ags task c <= bs)%Qc) cands)
         ∨ (∃ c, r = Some c ∧ (bs < score_of ags task c)%Qc
                 ∧ first_max ags task cands c)).
Proof.
  induction cands as [|c rest IH]; intros best bs Hkeys.
  - exists best. split; [reflexivity|]. left. by split.
  - apply Forall_cons in Hkeys as [[a Ha] Hrest]. simpl. rewrite Ha.
    assert (Hsc : score_of ags task c = agent_score a task)
      by (unfold score_of; by rewrite Ha).
    rewrite <- Hsc. case_bool_decide as Hlt.
    + destruct (IH (Some c) (score_of ags task c) Hrest)
        as (r & Hr & [[-> Hall]|(c' & -> & Hgt & pre & post & -> & Hpre & Hpost)]).
      * exists (Some c). split; [exact Hr|]. right. exists c.
        split; [reflexivity|]. split; [exact Hlt|].
        exists [], rest. by split_and!.
      * exists (Some c'). split; [exact Hr|]. right. exists c'.
        split; [reflexivity|].
        split; [by eapply Qclt_trans|].
        exists (c :: pre), post. split_and!; [done| |done].
        by constructor.
    + apply Qcnot_lt_le in Hlt.
      destruct (IH best bs Hrest)
        as (r & Hr & [[-> Hall]|(c' & -> & Hgt & pre & post & -> & Hpre & Hpost)]).
      * exists best. split; [exact Hr|]. left. split; [reflexivity|].
        by constructor.
      * exists (Some c'). split; [exact Hr|]. right. exists c'.
        split; [reflexivity|]. split; [exact Hgt|].
        exists (c :: pre), post. split_and!; [done| |done].
        constructor; [|done]. by eapply Qcle_lt_trans.
Qed.

(** What [_select_best_agent] computes on candidates that are keys of the
    agent dictionary: nothing when no score exceeds the initial
    [best_score = -1], and otherwise the first candidate of maximal score. *)
Lemma select_best_agent_spec (m : AgentManager) (task : Task.t)
    (cands : list string) :
  Forall (fun c => is_Some (dict_get (agents m) c)) cands ->
  (_select_best_agent m task cands = Return None
   ∧ Forall (fun c => (score_of (agents m) task c <= Qc_of_Z (-1))%Qc) cands)
  ∨ (∃ c, _select_best_agent m task cands = Return (Some c)
          ∧ (Qc_of_Z (-1) < score_of (agents m) task c)%Qc
          ∧ first_max (agents m) task cands c).
Proof.
  intros Hkeys. unfold _select_best_agent.
  destruct (select_loop_spec (agents m) task cands None (Qc_of_Z (-1)) Hkeys)
    as (r & Hr & [[-> Hall]|(c & -> & Hgt & Hfirst)]).
  - left. by split.
  - right. exists c. by split_and!.
Qed.

(** C4 at the pool [worn_pool]: the candidate list is the one idle agent,
    which therefore attains the maximal score (it is [-5]: no capability
    matches, [-0.1 * 100] for the load and [+5] for the success rate), and
    the selector returns nothing, because [-5] does not exceed the initial
    [best_score = -1]. *)
Theorem select_best_agent_misses_negative_max :
  idle_agents (agents worn_pool) = ["agent_1"]
  ∧ score_of (agents worn_pool) health_check "agent_1" = Qc_of_Z (-5)
  ∧ first_max (agents worn_pool) health_check ["agent_1"] "agent_1"
  ∧ _select_best_agent worn_pool health_check ["agent_1"] = Return None.
Proof.
  split; [reflexivity|]. split; [by apply Qc_is_canon|].
  split; [|reflexivity].
  exists [], []. by split_and!.
Qed.

(** ** Dictionaries *)

Lemma dict_get_update {V : Type} (d : list (string * V)) (k k' : string)
    (f : V -> V) :
  dict_get (dict_update d k f) k'
  = if decide (k = k') then f <$> dict_get d k' else dict_get d k'.
Proof.
  induction d as [|[k0 v] d IH]; simpl; [by case_decide|].
  destruct (decide (k0 = k)) as [->|Hk0]; simpl;
    repeat case_decide; simplify_eq; done.
Qed.

(** ** Where a task is *)

Lemma assign_task_to_agent_active (m : AgentManager) (task : Task.t)
    (agent_id : string) (now_activity now_started : Qc) :
  is_Some (dict_get (agents m) agent_id) ->
  let m' := _assign_task_to_agent m task agent_id now_activity now_started in
  active_tasks m' !! Task.id task
  = Some (Task.set_started_at (Some now_started)
            (Task.set_assigned_agent (Some agent_id) task))
  ∧ task_queue m' = task_queue m
  ∧ completed_tasks m' = completed_tasks m.
Proof.
  intros [a Ha]. unfold _assign_task_to_agent. rewrite Ha. simpl.
  split; [|done]. apply lookup_insert_eq.
Qed.

Lemma execute_task_completed (m : AgentManager) (task : Task.t)
    (agent_id : string) (out : ExecOutcome)
    (execution_time now_completed now_activity : Qc) :
  let m' :=
    _execute_task m task agent_id out execution_time now_completed
      now_activity in
  active_tasks m' !! Task.id task = None
  ∧ completed_tasks m'
    = completed_tasks m ++ [complete_task task out now_completed]
  ∧ task_queue m' = task_queue m.
Proof. simpl. split; [apply lookup_delete_eq|done]. Qed.

(** C1 at the pool [worn_pool]: the queue holds one task and the one agent
    is idle, so the dispatcher pops the task; the selector returns nothing
    for it and the loop goes on without it.  After the turn the task is in
    none of the queue, the active map and the completed list, whatever the
    clock. *)
Theorem task_distributor_loses_task (clock : nat -> Qc * Qc) :
  let m' := _task_distributor worn_pool clock in
  task_queue worn_pool = [health_check]
  ∧ idle_agents (agents worn_pool) = ["agent_1"]
  ∧ task_queue m' = []
  ∧ active_tasks m' = ∅
  ∧ completed_tasks m' = []
  ∧ agents m' = agents worn_pool.
Proof. by split_and!. Qed.

(** ** Agent invariant *)

Lemma complete_agent_returned_invariant (a : Agent.t) (r : ExecResult)
    (execution_time now_activity : Qc) :
  busy_iff_current (complete_agent a (Returned r) execution_time now_activity).
Proof. unfold busy_iff_current. simpl. split; [done|]. destruct (get_success r); done. Qed.

Lemma monitor_agent_invariant (now : Qc) (a : Agent.t) :
  busy_iff_current a -> busy_iff_current (monitor_agent now a).
Proof.
  unfold busy_iff_current, monitor_agent. intros Ha.
  destruct (Agent.status a) eqn:Hs; try (by rewrite Hs);
    case_bool_decide; simpl; rewrite ?Hs; try done.
  split; [|done]. intros Hc. apply Ha in Hc. done.
Qed.

(** The handler of a raised exception writes [status] and leaves
    [current_task] as it is. *)
Lemma complete_agent_raised_fields (a : Agent.t) (msg : string)
    (execution_time now_activity : Qc) :
  let a' := complete_agent a (Raised msg) execution_time now_activity in
  Agent.status a' = ERROR
  ∧ Agent.current_task a' = Agent.current_task a
  ∧ Agent.failed_tasks a' = (Agent.failed_tasks a + 1)%nat.
Proof. done. Qed.

(** C3 at the pool [pool_busy]: agent [agent_1] is BUSY on [task-1], as the
    invariant asks; its executor raises.  The handler leaves the agent in
    ERROR with [current_task] still [task-1], and the sweep that recovers it
    at time 40 makes it IDLE with [current_task] still [task-1]: in both
    states [current_task] is set and the status is not BUSY. *)
Theorem raised_completion_keeps_current_task :
  let m1 :=
    _execute_task pool_busy scrape_job_started "agent_1" (Raised "boom")
      (Qc_of_Z 5) (Qc_of_Z 25) (Qc_of_Z 25) in
  let m2 := _agent_monitor m1 (Qc_of_Z 40) in
  (agent_field Agent.status pool_busy "agent_1" = Some BUSY
   ∧ agent_field Agent.current_task pool_busy "agent_1"
     = Some (Some "task-1"))
  ∧ (agent_field Agent.status m1 "agent_1" = Some ERROR
     ∧ agent_field Agent.current_task m1 "agent_1" = Some (Some "task-1"))
  ∧ (agent_field Agent.status m2 "agent_1" = Some IDLE
     ∧ agent_field Agent.current_task m2 "agent_1" = Some (Some "task-1")).
Proof. by split_and!. Qed.

(** ** Task outcome *)

(** Counterexample to C2: the executor of [task-1] returns the failure
    dictionary of the mock.  The handler stores the dictionary in [result]
    and its message in [error]: [completed_at] is set and both fields are
    populated. *)
Lemma failed_task_has_result_and_error :
  let t' := complete_task scrape_job_started (Returned mock_failure)
              (Qc_of_Z 25) in
  completed_tasks
    (_execute_task pool_busy scrape_job_started "agent_1"
       (Returned mock_failure) (Qc_of_Z 5) (Qc_of_Z 25) (Qc_of_Z 25)) = [t']
  ∧ Task.completed_at t' = Some (Qc_of_Z 25)
  ∧ Task.result t' = Some mock_failure
  ∧ Task.error t' = Some "Mock error in task Scrape Product Data"
  ∧ ¬ result_xor_error t'.
Proof.
  split_and!; try reflexivity.
  intros [[_ H]|[H _]]; discriminate.
Qed.

(** C2, amended. For a task dispatched with neither [result] nor [error]
    set, the completion handler appends to the completed list the task with
    [completed_at] set and: on a returned dictionary, [result] holding that
    dictionary, and [error] populated exactly when the dictionary does not
    report success; on a raised exception, [error] holding the message and
    [result] unset.  Exactly one of the two fields is populated for a
    success and for a raised exception; a reported failure populates both. *)
Theorem completion_result_and_error (m : AgentManager) (task : Task.t)
    (agent_id : string) (out : ExecOutcome)
    (execution_time now_completed now_activity : Qc) :
  Task.result task = None -> Task.error task = None ->
  ∃ t',
    completed_tasks
      (_execute_task m task agent_id out execution_time now_completed
         now_activity) = completed_tasks m ++ [t']
    ∧ Task.completed_at t' = Some now_completed
    ∧ match out with
      | Returned r =>
          Task.result t' = Some r
          ∧ (Task.error t' ≠ None ↔ get_success r = false)
          ∧ (get_success r = true -> result_xor_error t')
          ∧ (get_success r = false ->
             Task.error t' = Some (get_error r) ∧ ¬ result_xor_error t')
      | Raised msg =>
          Task.result t' = None ∧ Task.error t' = Some msg
          ∧ result_xor_error t'
      end.
Proof.
  intros Hres Herr. exists (complete_task task out now_completed).
  split; [reflexivity|].
  destruct out as [r|msg]; [destruct (get_success r) eqn:Hs|];
    unfold result_xor_error; simpl; rewrite ?Hs, ?Hres, ?Herr; simpl;
    (split; [reflexivity|]); naive_solver.
Qed.

Lemma completion_result_and_error_witness :
  ∃ t',
    completed_tasks
      (_execute_task pool_busy scrape_job_started "agent_1"
         (Returned mock_success) (Qc_of_Z 5) (Qc_of_Z 25) (Qc_of_Z 25))
    = completed_tasks pool_busy ++ [t']
    ∧ Task.result t' = Some mock_success
    ∧ result_xor_error t'.
Proof.
  destruct (completion_result_and_error pool_busy scrape_job_started
              "agent_1" (Returned mock_success) (Qc_of_Z 5) (Qc_of_Z 25)
              (Qc_of_Z 25) eq_refl eq_refl)
    as (t' & Hc & _ & Hr & _ & Hx & _).
  exists t'. split; [exact Hc|]. split; [exact Hr|]. by apply Hx.
Defined.

(** ** Late completion *)

(** Counterexample to C5: in [pool_reassigned] the agent was reclaimed by
    the sweep and is now BUSY on [task-2]; the completion of [task-1] still
    arrives.  It makes the agent IDLE with no current task and counts one
    more completed task, while [task-2] is still in the active map. *)
Lemma late_completion_rewrites_agent :
  let m' :=
    _execute_task pool_reassigned scrape_job_started "agent_1"
      (Returned mock_success) (Qc_of_Z 40) (Qc_of_Z 60) (Qc_of_Z 60) in
  agent_field Agent.current_task pool_reassigned "agent_1"
  = Some (Some "task-2")
  ∧ Task.id scrape_job_started = "task-1"
  ∧ agent_field Agent.status pool_reassigned "agent_1" = Some BUSY
  ∧ agent_field Agent.status m' "agent_1" = Some IDLE
  ∧ agent_field Agent.current_task m' "agent_1" = Some None
  ∧ agent_field Agent.completed_tasks pool_reassigned "agent_1" = Some 0%nat
  ∧ agent_field Agent.completed_tasks m' "agent_1" = Some 1%nat
  ∧ is_Some (active_tasks m' !! "task-2")
  ∧ dict_get (agents m') "agent_1" ≠ dict_get (agents pool_reassigned) "agent_1".
Proof.
  split_and!; [by vm_compute..| |].
  - vm_compute. by eexists.
  - intros H. apply (f_equal (fmap Agent.status)) in H.
    vm_compute in H. discriminate.
Qed.

(** C5, amended. The completion handler does not look at the agent's
    [current_task]: whatever it holds, and so also after the agent was
    reclaimed or given another task, a returned result leaves the agent
    IDLE with no current task, [last_activity] at the time of the
    completion, the execution time added and the completed or the failed
    count one higher, and a raised exception leaves it in ERROR with one
    more failure.  The identity, the name and the capabilities of the agent
    and every other agent are unchanged. *)
Theorem completion_ignores_current_task (m : AgentManager) (task : Task.t)
    (agent_id : string) (a : Agent.t) (out : ExecOutcome)
    (execution_time now_completed now_activity : Qc) :
  dict_get (agents m) agent_id = Some a ->
  let m' :=
    _execute_task m task agent_id out execution_time now_completed
      now_activity in
  ∃ a',
    dict_get (agents m') agent_id = Some a'
    ∧ match out with
      | Returned r =>
          Agent.status a' = IDLE
          ∧ Agent.current_task a' = None
          ∧ Agent.last_activity a' = now_activity
          ∧ Agent.total_execution_time a'
            = (Agent.total_execution_time a + execution_time)%Qc
          ∧ Agent.completed_tasks a'
            = (Agent.completed_tasks a + if get_success r then 1 else 0)%nat
          ∧ Agent.failed_tasks a'
            = (Agent.failed_tasks a + if get_success r then 0 else 1)%nat
      | Raised _ =>
          Agent.status a' = ERROR
          ∧ Agent.failed_tasks a' = (Agent.failed_tasks a + 1)%nat
      end
    ∧ Agent.id a' = Agent.id a
    ∧ Agent.name a' = Agent.name a
    ∧ Agent.capabilities a' = Agent.capabilities a
    ∧ ∀ k, k ≠ agent_id -> dict_get (agents m') k = dict_get (agents m) k.
Proof.
  intros Ha m'.
  exists (complete_agent a out execution_time now_activity). split.
  - subst m'. unfold _execute_task. simpl.
    rewrite dict_get_update, decide_True by done. by rewrite Ha.
  - split.
    + destruct out as [r|msg]; simpl; [|done].
      destruct (get_success r); simpl; split_and!; try done; lia.
    + split_and!; try (destruct out as [r|msg]; simpl; [by destruct (get_success r)|done]).
      intros k Hk. subst m'. unfold _execute_task. simpl.
      rewrite dict_get_update. by rewrite decide_False.
Qed.

Lemma completion_ignores_current_task_witness :
  agent_field Agent.current_task pool_reassigned "agent_1"
  = Some (Some "task-2")
  ∧ agent_field Agent.current_task
      (_execute_task pool_reassigned scrape_job_started "agent_1"
         (Returned mock_success) (Qc_of_Z 40) (Qc_of_Z 60) (Qc_of_Z 60))
      "agent_1" = Some None.
Proof.
  split; [by vm_compute|].
  assert (Ha : dict_get (agents pool_reassigned) "agent_1"
               = Some (Agent.mk "agent_1" "WebScraper" BUSY (Some "task-2")
                         0 0 (Qc_of_Z 0) (Qc_of_Z 57)
                         ["scraping"; "data_extraction"; "screenshots"] 1))
    by (vm_compute; reflexivity).
  destruct (completion_ignores_current_task pool_reassigned
              scrape_job_started "agent_1" _ (Returned mock_success)
              (Qc_of_Z 40) (Qc_of_Z 60) (Qc_of_Z 60) Ha)
    as (a' & Hget & (_ & Hcur & _) & _).
  unfold agent_field. rewrite Hget. simpl. by rewrite Hcur.
Defined.

(** ** Aggregate statistics *)

Lemma py_max_one (x : Qc) :
  ((Qc_of_Z 1 <= x)%Qc -> py_max x (Qc_of_Z 1) = x)
  ∧ ((x < Qc_of_Z 1)%Qc -> py_max x (Qc_of_Z 1) = Qc_of_Z 1).
Proof.
  unfold py_max. split; intros H; case_bool_decide as Hlt; try done.
  by apply Qcle_not_lt in H.
Qed.

Lemma sixty_pos : (0 < / Qc_of_Z 60)%Qc.
Proof. by apply Qcinv_pos. Qed.

Lemma minutes_ge_one (runtime : Qc) :
  (Qc_of_Z 60 <= runtime)%Qc -> (Qc_of_Z 1 <= runtime / Qc_of_Z 60)%Qc.
Proof.
  intros H. unfold Qcdiv.
  replace (Qc_of_Z 1) with (Qc_of_Z 60 * / Qc_of_Z 60)%Qc
    by (by apply Qc_is_canon).
  apply Qcmult_le_compat_r; [exact H|]. apply Qclt_le_weak, sixty_pos.
Qed.

Lemma minutes_lt_one (runtime : Qc) :
  (runtime < Qc_of_Z 60)%Qc -> (runtime / Qc_of_Z 60 < Qc_of_Z 1)%Qc.
Proof.
  intros H. unfold Qcdiv.
  replace (Qc_of_Z 1) with (Qc_of_Z 60 * / Qc_of_Z 60)%Qc
    by (by apply Qc_is_canon).
  apply Qcmult_lt_compat_r; [apply sixty_pos|exact H].
Qed.

(** Counterexample to C9: [pool_done] has one completed task, which took
    five seconds, and is observed at time 30, before the tracker has run
    again.  The report gives an average execution time of 0, not [5 / 1],
    and one task per minute, not [1 / (30 / 60) = 2]. *)
Lemma status_report_stale_and_clamped :
  let m := pool_done in
  let now := Qc_of_Z 30 in
  let s := r_statistics (get_status_report m now) in
  let completed := Qc_of_nat (Stats.completed_tasks (stats m)) in
  Stats.completed_tasks (stats m) = 1%nat
  ∧ runtime_seconds s = Qc_of_Z 30
  ∧ total_time (agents m) = Qc_of_Z 5
  ∧ Stats.average_execution_time (o_stats s) = Qc_of_Z 0
  ∧ Stats.average_execution_time (o_stats s)
    ≠ (total_time (agents m) / completed)%Qc
  ∧ tasks_per_minute s = Qc_of_Z 1
  ∧ tasks_per_minute s ≠ (completed / (runtime_seconds s / Qc_of_Z 60))%Qc.
Proof.
  split_and!; first [by vm_compute | apply Qc_is_canon; by vm_compute].
Qed.

(** C9, amended. The report carries the average execution time that the
    tracker stored last; in the state a tracker recomputation leaves, with
    at least one completed task, that is the sum of the agents' total
    execution times divided by the completed count.  Tasks per minute is
    the completed count divided by [max(elapsed minutes, 1)]: it is the
    completed count divided by the elapsed minutes once a minute has
    elapsed, and the completed count itself before. *)
Theorem status_report_statistics (m : AgentManager) (now : Qc) :
  let s := r_statistics (get_status_report m now) in
  let s' := r_statistics (get_status_report (_performance_tracker m) now) in
  let completed := Stats.completed_tasks (stats m) in
  let runtime := (now - Stats.start_time (stats m))%Qc in
  Stats.average_execution_time (o_stats s)
  = Stats.average_execution_time (stats m)
  ∧ ((0 < completed)%nat ->
     Stats.average_execution_time (o_stats s')
     = (total_time (agents m) / Qc_of_nat completed)%Qc)
  ∧ tasks_per_minute s
    = (Qc_of_nat completed / py_max (runtime / Qc_of_Z 60) (Qc_of_Z 1))%Qc
  ∧ ((Qc_of_Z 60 <= runtime)%Qc ->
     tasks_per_minute s = (Qc_of_nat completed / (runtime / Qc_of_Z 60))%Qc)
  ∧ ((runtime < Qc_of_Z 60)%Qc -> tasks_per_minute s = Qc_of_nat completed).
Proof.
  intros s s' completed runtime. split_and!; try reflexivity.
  - intros Hc. subst s'. unfold _performance_tracker.
    assert (Hpos : (0 <? Stats.completed_tasks (stats m))%nat = true)
      by (apply Nat.ltb_lt; exact Hc).
    rewrite Hpos. reflexivity.
  - intros Hrt. subst s. simpl.
    destruct (py_max_one (runtime / Qc_of_Z 60)) as [Hmax _].
    fold runtime. by rewrite Hmax by by apply minutes_ge_one.
  - intros Hrt. subst s. simpl.
    destruct (py_max_one (runtime / Qc_of_Z 60)) as [_ Hmax].
    fold runtime. rewrite Hmax by by apply minutes_lt_one.
    unfold Qcdiv. replace (/ Qc_of_Z 1)%Qc with 1%Qc
      by (by apply Qc_is_canon).
    subst completed. ring.
Qed.

Lemma status_report_statistics_witness :
  let m := _performance_tracker pool_done in
  let s := r_statistics (get_status_report m (Qc_of_Z 120)) in
  Stats.average_execution_time (o_stats s)
  = (total_time (agents pool_done) / Qc_of_nat 1)%Qc
  ∧ tasks_per_minute s
    = (Qc_of_nat 1 / ((Qc_of_Z 120 - Qc_of_Z 0) / Qc_of_Z 60))%Qc.
Proof.
  intros m s.
  destruct (status_report_statistics pool_done (Qc_of_Z 120))
    as (_ & Havg & _ & _ & _).
  destruct (status_report_statistics m (Qc_of_Z 120))
    as (_ & _ & _ & Hrate & _).
  split.
  - apply Havg. vm_compute. lia.
  - apply Hrate. by vm_compute.
Defined.
(** * Properties of the rest of the module *)

(** ** Dictionaries, continued *)

Lemma dict_keys_update {V : Type} (d : list (string * V)) (k : string)
    (f : V -> V) :
  dict_keys (dict_update d k f) = dict_keys d.
Proof.
  induction d as [|[k0 v] d IH]; simpl; [done|].
  case_decide; simpl; [done|]. by f_equal.
Qed.

Lemma dict_get_is_Some {V : Type} (d : list (string * V)) (k : string) :
  is_Some (dict_get d k) ↔ k ∈ dict_keys d.
Proof.
  induction d as [|[k0 v] d IH]; simpl.
  - split; [by intros [? ?]|by intros ?%elem_of_nil].
  - rewrite elem_of_cons. case_decide as Hk; simpl.
    + split; [by left|by eexists].
    + rewrite IH. split; [by right|]. by intros [->|?].
Qed.

Lemma dict_get_Some_elem {V : Type} (d : list (string * V)) (k : string)
    (v : V) :
  dict_get d k = Some v -> (k, v) ∈ d.
Proof.
  induction d as [|[k0 v0] d IH]; simpl; [done|].
  case_decide as Hk; intros H.
  - simplify_eq. by left.
  - right. by apply IH.
Qed.

Lemma dict_get_set {V : Type} (d : list (string * V)) (k k' : string)
    (v : V) :
  dict_get (dict_set d k v) k'
  = if decide (k = k') then Some v else dict_get d k'.
Proof.
  induction d as [|[k0 v0] d IH]; simpl.
  - repeat case_decide; simplify_eq; done.
  - destruct (decide (k0 = k)) as [->|Hk0]; simpl;
      repeat case_decide; simplify_eq; done.
Qed.

Lemma idle_agents_keys (ags : list (string * Agent.t)) (k : string) :
  k ∈ idle_agents ags -> k ∈ dict_keys ags.
Proof.
  unfold idle_agents, dict_keys. rewrite !list_elem_of_fmap.
  intros ([k' a] & -> & Hin). apply list_elem_of_filter in Hin as [_ Hin].
  by exists (k', a).
Qed.

Lemma list_remove_first_subseteq (x : string) (l : list string) :
  list_remove_first x l ⊆ l.
Proof.
  induction l as [|y l IH]; simpl; [done|].
  case_decide; [by apply list_subseteq_cons|].
  intros z. rewrite !elem_of_cons. intros [->|Hz]; [by left|right; by apply IH].
Qed.

(** ** The selector, continued *)

Lemma select_loop_elem (ags : list (string * Agent.t)) (task : Task.t)
    (cands : list string) :
  ∀ (best r : option string) (bs : Qc),
    select_loop ags task cands best bs = Return r ->
    r = best ∨ ∃ c, r = Some c ∧ c ∈ cands.
Proof.
  induction cands as [|c rest IH]; intros best r bs; simpl.
  - intros [= ->]. by left.
  - destruct (dict_get ags c) as [a|]; [|done].
    case_bool_decide; intros [->|(c' & -> & Hc')]%IH.
    + right. exists c. split; [done|by left].
    + right. exists c'. split; [done|by right].
    + by left.
    + right. exists c'. split; [done|by right].
Qed.

Lemma select_best_agent_elem (m : AgentManager) (task : Task.t)
    (cands : list string) (c : string) :
  _select_best_agent m task cands = Return (Some c) -> c ∈ cands.
Proof.
  intros [?|(c' & [= ->] & Hc)]%select_loop_elem; done.
Qed.

Lemma select_loop_KeyError (ags : list (string * Agent.t)) (task : Task.t)
    (cands : list string) :
  ∀ (best : option string) (bs : Qc) (k : string),
    select_loop ags task cands best bs = KeyError k ->
    k ∈ cands ∧ dict_get ags k = None.
Proof.
  induction cands as [|c rest IH]; intros best bs k; simpl; [done|].
  destruct (dict_get ags c) as [a|] eqn:Hc.
  - case_bool_decide; intros [? ?]%IH; split; try done; by right.
  - intros [= <-]. split; [by left|done].
Qed.

(** ** The dispatcher, continued *)

Lemma assign_task_to_agent_frame (m : AgentManager) (task : Task.t)
    (agent_id : string) (now_activity now_started : Qc) :
  let m' := _assign_task_to_agent m task agent_id now_activity now_started in
  task_queue m' = task_queue m
  ∧ completed_tasks m' = completed_tasks m
  ∧ stats m' = stats m
  ∧ is_running m' = is_running m
  ∧ dict_keys (agents m') = dict_keys (agents m).
Proof.
  unfold _assign_task_to_agent.
  destruct (dict_get (agents m) agent_id); simpl; [|done].
  split_and!; try done. apply dict_keys_update.
Qed.

Lemma assign_task_to_agent_other (m : AgentManager) (task : Task.t)
    (agent_id k : string) (now_activity now_started : Qc) :
  k ≠ agent_id ->
  dict_get
    (agents (_assign_task_to_agent m task agent_id now_activity now_started))
    k
  = dict_get (agents m) k.
Proof.
  intros Hk. unfold _assign_task_to_agent.
  destruct (dict_get (agents m) agent_id); simpl; [|done].
  rewrite dict_get_update. by rewrite decide_False.
Qed.

(** Induction over the loop of the dispatcher: a property of the manager
    and the available list that survives the pop of a task and the
    assignment of a task to an available agent holds when the loop ends. *)
Section AssignBatch.
Variable P : AgentManager -> list string -> Prop.
Hypothesis P_pop :
  ∀ m av task q,
    P m av -> task_queue m = task :: q -> P (set_task_queue q m) av.
Hypothesis P_assign :
  ∀ m av task agent_id t1 t2,
    P m av -> agent_id ∈ av ->
    P (_assign_task_to_agent m task agent_id t1 t2)
      (list_remove_first agent_id av).

Lemma assign_batch_invariant (n : nat) :
  ∀ i m av clock, P m av -> ∃ av', P (assign_batch n i m av clock) av'.
Proof.
  induction n as [|n IH]; intros i m av clock HP; simpl; [by exists av|].
  destruct (task_queue m) as [|task q] eqn:Hq; [by exists av|].
  pose proof (P_pop m av task q HP Hq) as HP1.
  destruct (_select_best_agent (set_task_queue q m) task av)
    as [[c|]|k] eqn:Hsel; [|by apply IH|by exists av].
  case_decide; [by apply IH|].
  apply IH, P_assign; [done|]. by eapply select_best_agent_elem.
Qed.
End AssignBatch.

Lemma assign_batch_frame (n i : nat) (m : AgentManager) (av : list string)
    (clock : nat -> Qc * Qc) :
  let m' := assign_batch n i m av clock in
  completed_tasks m' = completed_tasks m
  ∧ stats m' = stats m
  ∧ is_running m' = is_running m
  ∧ dict_keys (agents m') = dict_keys (agents m).
Proof.
  destruct (assign_batch_invariant
              (fun m' _ =>
                 completed_tasks m' = completed_tasks m
                 ∧ stats m' = stats m
                 ∧ is_running m' = is_running m
                 ∧ dict_keys (agents m') = dict_keys (agents m)))
    with (n := n) (i := i) (m := m) (av := av) (clock := clock)
    as [_ H]; try done.
  intros m0 av0 task aid t1 t2 (Hc & Hs & Hr & Hk) _.
  destruct (assign_task_to_agent_frame m0 task aid t1 t2)
    as (_ & Hc' & Hs' & Hr' & Hk').
  split_and!; congruence.
Qed.

Lemma assign_batch_queue (n : nat) :
  ∀ i m av clock,
    av ⊆ dict_keys (agents m) ->
    task_queue (assign_batch n i m av clock) = drop n (task_queue m).
Proof.
  induction n as [|n IH]; intros i m av clock Hav; simpl; [done|].
  destruct (task_queue m) as [|task q] eqn:Hq; [by rewrite Hq|].
  destruct (_select_best_agent (set_task_queue q m) task av)
    as [[c|]|k] eqn:Hsel.
  - case_decide; [by rewrite IH|].
    destruct (assign_task_to_agent_frame (set_task_queue q m) task c
                (clock i).1 (clock i).2) as (Hq' & _ & _ & _ & Hk').
    rewrite IH; [by rewrite Hq'|].
    rewrite Hk'. etrans; [apply list_remove_first_subseteq|done].
  - by rewrite IH.
  - apply select_loop_KeyError in Hsel as [Hk Hnone].
    apply Hav, dict_get_is_Some in Hk as [a Ha]. simpl in Hnone. congruence.
Qed.

Lemma assign_batch_other (n i : nat) (m : AgentManager) (av : list string)
    (clock : nat -> Qc * Qc) (k : string) :
  k ∉ av ->
  dict_get (agents (assign_batch n i m av clock)) k = dict_get (agents m) k.
Proof.
  intros Hk.
  destruct (assign_batch_invariant
              (fun m' av' =>
                 dict_get (agents m') k = dict_get (agents m) k ∧ k ∉ av'))
    with (n := n) (i := i) (m := m) (av := av) (clock := clock)
    as [av' [H _]]; try done.
  intros m0 av0 task aid t1 t2 [Hget Hnot] Hin. split.
  - rewrite assign_task_to_agent_other; [done|]. by intros ->.
  - intros Hin'. by apply Hnot, (list_remove_first_subseteq aid).
Qed.

Lemma task_distributor_queue (m : AgentManager) (clock : nat -> Qc * Qc) :
  task_queue (_task_distributor m clock)
  = drop (Nat.min (length (task_queue m))
            (length (idle_agents (agents m)))) (task_queue m).
Proof.
  unfold _task_distributor.
  destruct (task_queue m) as [|t q] eqn:Hq; [by rewrite Hq|].
  destruct (idle_agents (agents m)) as [|c av] eqn:Hav.
  { rewrite Hq, Nat.min_0_r. by simpl. }
  rewrite <- Hq, <- Hav.
  apply assign_batch_queue. intros k. apply idle_agents_keys.
Qed.

Lemma task_distributor_frame (m : AgentManager) (clock : nat -> Qc * Qc) :
  let m' := _task_distributor m clock in
  completed_tasks m' = completed_tasks m
  ∧ stats m' = stats m
  ∧ is_running m' = is_running m
  ∧ dict_keys (agents m') = dict_keys (agents m).
Proof.
  unfold _task_distributor.
  destruct (task_queue m) as [|t q]; [done|].
  destruct (idle_agents (agents m)) as [|c av]; [done|].
  apply assign_batch_frame.
Qed.

(** X1. One turn of the dispatcher takes exactly
    [min(len(queue), len(idle agents))] tasks off the front of the queue,
    none when the queue is empty or no agent is idle; it leaves the
    completed list, the statistics and the keys of the agent dictionary as
    they were. *)
Theorem task_distributor_pops_prefix (m : AgentManager)
    (clock : nat -> Qc * Qc) :
  let m' := _task_distributor m clock in
  task_queue m'
  = drop (Nat.min (length (task_queue m))
            (length (idle_agents (agents m)))) (task_queue m)
  ∧ completed_tasks m' = completed_tasks m
  ∧ stats m' = stats m
  ∧ dict_keys (agents m') = dict_keys (agents m).
Proof.
  split; [apply task_distributor_queue|].
  by destruct (task_distributor_frame m clock) as (? & ? & _ & ?).
Qed.



Lemma dict_get_elem_NoDup {V : Type} (d : list (string * V)) (k : string)
    (v : V) :
  NoDup (dict_keys d) -> (k, v) ∈ d -> dict_get d k = Some v.
Proof.
  induction d as [|[k0 v0] d IH]; simpl; [by intros _ ?%elem_of_nil|].
  intros [Hk0 Hnd]%NoDup_cons [[= -> ->]|Hin]%elem_of_cons.
  - by rewrite decide_True.
  - rewrite decide_False; [by apply IH|].
    intros ->. apply Hk0. unfold dict_keys. apply list_elem_of_fmap.
    by exists (k, v).
Qed.

Lemma not_idle_not_available (ags : list (string * Agent.t)) (k : string)
    (a : Agent.t) :
  NoDup (dict_keys ags) -> dict_get ags k = Some a ->
  Agent.status a ≠ IDLE -> k ∉ idle_agents ags.
Proof.
  intros Hnd Hget Hst. unfold idle_agents. rewrite list_elem_of_fmap.
  intros ([k' a'] & -> & Hin). apply list_elem_of_filter in Hin as [Hidle Hin].
  apply (dict_get_elem_NoDup _ _ _ Hnd) in Hin. simpl in *. congruence.
Qed.

(** X3. A turn of the dispatcher leaves every agent that is not IDLE when
    the turn starts exactly as it was (the keys of a dictionary are
    distinct): a BUSY agent keeps its task, an agent in ERROR or OFFLINE is
    not given one. *)
Theorem task_distributor_skips_non_idle (m : AgentManager)
    (clock : nat -> Qc * Qc) (k : string) (a : Agent.t) :
  NoDup (dict_keys (agents m)) ->
  dict_get (agents m) k = Some a ->
  Agent.status a ≠ IDLE ->
  dict_get (agents (_task_distributor m clock)) k = Some a.
Proof.
  intros Hnd Hget Hst. unfold _task_distributor.
  destruct (task_queue m) as [|t q] eqn:Hq; [done|].
  destruct (idle_agents (agents m)) as [|c av] eqn:Hav; [done|].
  rewrite <- Hav, assign_batch_other; [done|].
  by eapply not_idle_not_available.
Qed.

Lemma task_distributor_skips_non_idle_witness :
  agent_field Agent.current_task
    (_task_distributor (add_task pool_busy form_job (Qc_of_Z 30))
       (fun _ => (Qc_of_Z 31, Qc_of_Z 31))) "agent_1"
  = Some (Some "task-1").
Proof.
  unfold agent_field.
  rewrite (task_distributor_skips_non_idle _ _ "agent_1"
             (Agent.mk "agent_1" "WebScraper" BUSY (Some "task-1") 0 0
                (Qc_of_Z 0) (Qc_of_Z 20)
                ["scraping"; "data_extraction"; "screenshots"] 1)).
  - reflexivity.
  - apply (bool_decide_unpack _). by vm_compute.
  - by vm_compute.
  - done.
Defined.

(** ** Runs *)

Lemma run_invariant (P : AgentManager -> Prop) (Q : Event -> Prop) :
  (∀ m e, P m -> Q e -> P (step m e)) ->
  ∀ events m, P m -> Forall Q events -> P (run m events).
Proof.
  intros Hstep events. unfold run.
  induction events as [|e events IH]; intros m HP HQ; simpl; [done|].
  apply Forall_cons in HQ as [He HQ]. apply IH; [|done]. by apply Hstep.
Qed.

Lemma run_invariant_all (P : AgentManager -> Prop) :
  (∀ m e, P m -> P (step m e)) -> ∀ events m, P m -> P (run m events).
Proof.
  intros Hstep events m HP.
  apply (run_invariant P (fun _ => True)); [auto|done|].
  by apply Forall_true.
Qed.

(** *** The new manager *)

Lemma initialize_new_agents (n : Z) (clock : nat -> Qc) (now : Qc) :
  ∃ k, (k <= 5)%nat
    ∧ agents (initialize (new_manager n) clock now)
      = take k
          ((fun i =>
              let config := default ("", []) (agent_configs !! i) in
              ("agent_" +:+ pretty (i + 1)%nat,
               Agent.mk ("agent_" +:+ pretty (i + 1)%nat) config.1 IDLE None
                 0 0 (Qc_of_Z 0) (clock i) config.2 1)) <$> seq 0 5).
Proof.
  rewrite initialize_agents.
  assert (Hcases : (n <= 0)%Z ∨ n = 1%Z ∨ n = 2%Z ∨ n = 3%Z ∨ n = 4%Z
                   ∨ (5 <= n)%Z) by lia.
  destruct Hcases as [Hneg|[->|[->|[->|[->|Hbig]]]]].
  - exists 0%nat. split; [lia|]. unfold init_range.
    change (Z.of_nat (length agent_configs)) with 5%Z. simpl max_agents.
    replace (Z.to_nat (Z.min n 5)) with 0%nat by lia. reflexivity.
  - exists 1%nat. split; [lia|]. rewrite init_range_small by lia. reflexivity.
  - exists 2%nat. split; [lia|]. rewrite init_range_small by lia. reflexivity.
  - exists 3%nat. split; [lia|]. rewrite init_range_small by lia. reflexivity.
  - exists 4%nat. split; [lia|]. rewrite init_range_small by lia. reflexivity.
  - exists 5%nat. split; [lia|]. rewrite init_range_large by lia. reflexivity.
Qed.

Lemma initialize_new_frame (n : Z) (clock : nat -> Qc) (now : Qc) :
  let m := initialize (new_manager n) clock now in
  task_queue m = [] ∧ completed_tasks m = [] ∧ active_tasks m = ∅
  ∧ is_running m = false
  ∧ stats m = Stats.mk 0 0 0 (Qc_of_Z 0) now.
Proof.
  assert (Hfold : ∀ l m,
            let m' := foldl (fun m i => create_agent m i (clock i)) m l in
            task_queue m' = task_queue m
            ∧ completed_tasks m' = completed_tasks m
            ∧ active_tasks m' = active_tasks m
            ∧ is_running m' = is_running m
            ∧ stats m' = stats m).
  { induction l as [|i l IH]; intros m; simpl; [done|].
    destruct (IH (create_agent m i (clock i))) as (? & ? & ? & ? & ?).
    unfold create_agent in *. by destruct (agent_configs !! i). }
  unfold initialize.
  destruct (Hfold (init_range (new_manager n)) (new_manager n))
    as (Hq & Hc & Ha & Hr & Hs).
  simpl in *. rewrite Hq, Hc, Ha, Hr, Hs. done.
Qed.

(** *** What a step leaves alone *)

Lemma roster_update (d : list (string * Agent.t)) (k : string)
    (f : Agent.t -> Agent.t) :
  (∀ a, agent_identity (f a) = agent_identity a) ->
  prod_map id agent_identity <$> dict_update d k f
  = prod_map id agent_identity <$> d.
Proof.
  intros Hf. induction d as [|[k0 a] d IH]; [done|].
  simpl dict_update. case_decide; rewrite !fmap_cons; [|by rewrite IH].
  unfold prod_map. simpl. by rewrite Hf.
Qed.

Lemma roster_keys (m : AgentManager) :
  dict_keys (agents m) = fst <$> roster m.
Proof.
  unfold roster, dict_keys. rewrite <- list_fmap_compose.
  apply list_fmap_ext. by intros _ [? ?] _.
Qed.

Lemma assign_task_to_agent_roster (m : AgentManager) (task : Task.t)
    (agent_id : string) (t1 t2 : Qc) :
  roster (_assign_task_to_agent m task agent_id t1 t2) = roster m.
Proof.
  unfold _assign_task_to_agent, roster.
  destruct (dict_get (agents m) agent_id); simpl; [|done].
  by apply roster_update.
Qed.

Lemma assign_batch_roster (n i : nat) (m : AgentManager) (av : list string)
    (clock : nat -> Qc * Qc) :
  roster (assign_batch n i m av clock) = roster m.
Proof.
  destruct (assign_batch_invariant (fun m' _ => roster m' = roster m))
    with (n := n) (i := i) (m := m) (av := av) (clock := clock)
    as [_ H]; try done.
  intros m0 av0 task aid t1 t2 H0 _.
  by rewrite assign_task_to_agent_roster.
Qed.

Lemma monitor_agent_identity (now : Qc) (a : Agent.t) :
  agent_identity (monitor_agent now a) = agent_identity a.
Proof.
  unfold monitor_agent.
  destruct (Agent.status a); try done; by case_bool_decide.
Qed.

Lemma complete_agent_identity (a : Agent.t) (out : ExecOutcome)
    (execution_time now_activity : Qc) :
  agent_identity (complete_agent a out execution_time now_activity)
  = agent_identity a.
Proof. destruct out as [r|msg]; simpl; [by destruct (get_success r)|done]. Qed.

Lemma step_roster (m : AgentManager) (e : Event) :
  roster (step m e) = roster m.
Proof.
  destruct e; simpl; try done.
  - unfold start_execution. by destruct (is_running m).
  - destruct (is_running m); [|done]. unfold _task_distributor.
    destruct (task_queue m); [done|].
    destruct (idle_agents (agents m)); [done|]. apply assign_batch_roster.
  - destruct (is_running m); [|done]. unfold roster. simpl.
    rewrite <- list_fmap_compose. apply list_fmap_ext.
    intros _ [k a] _. unfold prod_map. simpl.
    by rewrite monitor_agent_identity.
  - destruct (is_running m); [|done]. unfold _performance_tracker.
    by destruct (0 <? _)%nat.
  - unfold roster. simpl. apply roster_update.
    intros a. apply complete_agent_identity.
Qed.

Lemma step_keys (m : AgentManager) (e : Event) :
  dict_keys (agents (step m e)) = dict_keys (agents m).
Proof. by rewrite !roster_keys, step_roster. Qed.

(** X4. No event of a run changes the roster: from the initialisation on,
    the agent dictionary has the same keys in the same order, and every
    agent keeps its id, name, capabilities and [max_concurrent_tasks]. *)
Theorem run_keeps_roster (m : AgentManager) (events : list Event) :
  roster (run m events) = roster m
  ∧ dict_keys (agents (run m events)) = dict_keys (agents m)
  ∧ length (agents (run m events)) = length (agents m).
Proof.
  assert (H : roster (run m events) = roster m).
  { apply (run_invariant_all (fun m' => roster m' = roster m)); [|done].
    intros m' e Hm'. by rewrite step_roster. }
  split; [done|]. split; [by rewrite !roster_keys, H|].
  apply (f_equal length) in H. unfold roster in H.
  by rewrite !length_fmap in H.
Qed.

(** *** Counters and the completed list *)

Lemma complete_task_finished (task : Task.t) (out : ExecOutcome) (now : Qc) :
  finished (complete_task task out now).
Proof.
  unfold finished. destruct out as [r|msg]; simpl.
  - destruct (get_success r); simpl; split; try done; by left.
  - split; [done|by right].
Qed.

Lemma step_completed_tasks (m : AgentManager) (e : Event) :
  completed_tasks (step m e) = completed_tasks m
  ∧ Stats.completed_tasks (stats (step m e)) = Stats.completed_tasks (stats m)
  ∧ Stats.failed_tasks (stats (step m e)) = Stats.failed_tasks (stats m)
  ∨ ∃ task agent_id out execution_time now_completed now_activity,
      e = Complete task agent_id out execution_time now_completed
            now_activity
      ∧ completed_tasks (step m e)
        = completed_tasks m ++ [complete_task task out now_completed]
      ∧ stats (step m e) = complete_stats (stats m) out.
Proof.
  destruct e; simpl; try (by left).
  - left. unfold start_execution. by destruct (is_running m).
  - left. destruct (is_running m); [|done].
    by destruct (task_distributor_frame m clock) as (-> & -> & _).
  - left. by destruct (is_running m).
  - left. destruct (is_running m); [|done]. unfold _performance_tracker.
    by destruct (0 <? _)%nat.
  - right. by repeat eexists.
Qed.

Lemma step_counts_agree (m : AgentManager) (e : Event) :
  counts_agree m -> counts_agree (step m e).
Proof.
  unfold counts_agree. intros Hm.
  destruct (step_completed_tasks m e)
    as [(-> & -> & ->)|(task & k & out & t1 & t2 & t3 & _ & -> & ->)];
    [done|].
  rewrite length_app. simpl.
  destruct out as [r|msg]; simpl; [destruct (get_success r)|]; simpl; lia.
Qed.

(** X5. In every state a run reaches from a newly initialised manager, the
    completed and failed counts of the statistics add up to the length of
    the completed list, and every task of that list has its completion time
    and a result or an error. *)
Theorem run_counts_completed (n : Z) (clock : nat -> Qc) (now : Qc)
    (events : list Event) :
  let m := run (initialize (new_manager n) clock now) events in
  (Stats.completed_tasks (stats m) + Stats.failed_tasks (stats m))%nat
  = length (completed_tasks m)
  ∧ Forall finished (completed_tasks m).
Proof.
  destruct (initialize_new_frame n clock now) as (_ & Hc & _ & _ & Hs).
  split.
  - apply (run_invariant_all counts_agree); [apply step_counts_agree|].
    unfold counts_agree. by rewrite Hc, Hs.
  - apply (run_invariant_all (fun m => Forall finished (completed_tasks m))).
    + intros m e Hm.
      destruct (step_completed_tasks m e)
        as [(-> & _)|(task & k & out & t1 & t2 & t3 & _ & -> & _)];
        [done|].
      apply Forall_app. split; [done|].
      constructor; [apply complete_task_finished|done].
    + by rewrite Hc.
Qed.

(** *** The queue *)

Lemma StronglySorted_drop {A : Type} (R : A -> A -> Prop) (n : nat) :
  ∀ l, StronglySorted R l -> StronglySorted R (drop n l).
Proof.
  induction n as [|n IH]; intros l Hl; [done|].
  destruct l as [|x l]; [done|]. simpl.
  apply IH. by apply StronglySorted_inv in Hl as [? _].
Qed.

Lemma step_task_queue (m : AgentManager) (e : Event) :
  task_queue (step m e) = task_queue m
  ∨ (∃ task now,
       e = Submit task now
       ∧ task_queue (step m e)
         = sort_desc (task_queue m
                      ++ [Task.set_created_at (Some now) task]))
  ∨ (∃ clock k,
       e = Dispatch clock ∧ is_running m = true
       ∧ task_queue (step m e) = drop k (task_queue m)).
Proof.
  destruct e; simpl; try (by left).
  - right. left. by repeat eexists.
  - left. unfold start_execution. by destruct (is_running m).
  - destruct (is_running m) eqn:Hr; [|by left]. right. right.
    exists clock. eexists. split; [done|]. split; [done|].
    apply task_distributor_queue.
  - left. by destruct (is_running m).
  - left. destruct (is_running m); [|done]. unfold _performance_tracker.
    by destruct (0 <? _)%nat.
Qed.

Lemma step_queue_ordered (m : AgentManager) (e : Event) :
  queue_ordered m -> queue_ordered (step m e).
Proof.
  unfold queue_ordered. intros [Hs Hc].
  destruct (step_task_queue m e)
    as [->|[(task & now & _ & ->)|(clock & k & _ & _ & ->)]]; [done| |].
  - split; [apply sort_desc_sorted|].
    rewrite sort_desc_perm. apply Forall_app. split; [done|].
    by constructor.
  - split; [by apply StronglySorted_drop|by apply Forall_drop].
Qed.

(** X6. In every state a run reaches from a newly initialised manager the
    queue is sorted by descending priority and every queued task has its
    creation time: the head is always a task of the highest priority
    waiting. *)
Theorem run_queue_sorted (n : Z) (clock : nat -> Qc) (now : Qc)
    (events : list Event) :
  let m := run (initialize (new_manager n) clock now) events in
  StronglySorted prio_ge (task_queue m)
  ∧ Forall (fun t => Task.created_at t ≠ None) (task_queue m)
  ∧ ∀ t rest, task_queue m = t :: rest -> Forall (prio_ge t) rest.
Proof.
  intros m.
  assert (H : queue_ordered m).
  { apply (run_invariant_all queue_ordered); [apply step_queue_ordered|].
    destruct (initialize_new_frame n clock now) as (Hq & _).
    unfold queue_ordered. rewrite Hq. split; constructor. }
  destruct H as [Hs Hc]. split; [done|]. split; [done|].
  intros t rest Hq. rewrite Hq in Hs.
  by apply StronglySorted_inv in Hs as [_ ?].
Qed.

(** X7. The submitted-task counter counts the [add_task] calls and nothing
    else: after a run it has grown by the number of submissions, whatever
    was dispatched, completed or dropped in between; and [add_tasks_batch]
    adds the length of the batch to the counter and to the queue. *)
Theorem run_total_tasks (m : AgentManager) (events : list Event)
    (tasks : list Task.t) (clock : nat -> Qc) :
  Stats.total_tasks (stats (run m events))
  = (Stats.total_tasks (stats m) + submissions events)%nat
  ∧ Stats.total_tasks (stats (add_tasks_batch m tasks clock))
    = (Stats.total_tasks (stats m) + length tasks)%nat
  ∧ length (task_queue (add_tasks_batch m tasks clock))
    = (length (task_queue m) + length tasks)%nat.
Proof.
  split; [|split].
  - unfold run. revert m.
    induction events as [|e events IH]; intros m; simpl; [lia|].
    rewrite IH. destruct e; simpl; try lia.
    + unfold start_execution. destruct (is_running m); simpl; lia.
    + destruct (is_running m); [|lia].
      destruct (task_distributor_frame m clock0) as (_ & -> & _). lia.
    + destruct (is_running m); simpl; lia.
    + destruct (is_running m); [|lia]. unfold _performance_tracker.
      destruct (0 <? _)%nat; simpl; lia.
    + destruct out as [r|msg]; simpl; [destruct (get_success r)|]; simpl;
        lia.
  - unfold add_tasks_batch. generalize 0%nat. revert m.
    induction tasks as [|t tasks IH]; intros m i; simpl; [lia|].
    rewrite IH. simpl. lia.
  - unfold add_tasks_batch.
    pose proof (add_tasks_from_perm tasks 0 m clock) as Hp.
    apply Permutation_length in Hp. rewrite Hp, length_app. f_equal.
    clear Hp. generalize 0%nat. induction tasks as [|t tasks IH]; intros i; simpl;
      [done|]. by rewrite IH.
Qed.

(** *** Per-agent counters *)

Lemma sum_update_same (g : Agent.t -> nat) (d : list (string * Agent.t))
    (k : string) (f : Agent.t -> Agent.t) :
  (∀ a, g (f a) = g a) ->
  sum_list (g <$> dict_values (dict_update d k f))
  = sum_list (g <$> dict_values d).
Proof.
  intros Hf. unfold dict_values.
  induction d as [|[k0 a] d IH]; [done|].
  simpl dict_update. case_decide; csimpl; [by rewrite Hf|by rewrite IH].
Qed.

Lemma sum_update_Some (g : Agent.t -> nat) (d : list (string * Agent.t))
    (k : string) (f : Agent.t -> Agent.t) (a : Agent.t) :
  dict_get d k = Some a ->
  (sum_list (g <$> dict_values (dict_update d k f)) + g a)%nat
  = (sum_list (g <$> dict_values d) + g (f a))%nat.
Proof.
  unfold dict_values. induction d as [|[k0 a0] d IH]; [done|].
  simpl. case_decide; csimpl.
  - intros [= ->]. lia.
  - intros Ha. specialize (IH Ha). lia.
Qed.

Lemma sum_monitor (g : Agent.t -> nat) (d : list (string * Agent.t))
    (now : Qc) :
  (∀ a, g (monitor_agent now a) = g a) ->
  sum_list (g <$> dict_values (prod_map id (monitor_agent now) <$> d))
  = sum_list (g <$> dict_values d).
Proof.
  intros Hg. unfold dict_values.
  induction d as [|[k0 a] d IH]; csimpl; [done|]. by rewrite Hg, IH.
Qed.

Lemma monitor_agent_counters (now : Qc) (a : Agent.t) :
  Agent.completed_tasks (monitor_agent now a) = Agent.completed_tasks a
  ∧ Agent.failed_tasks (monitor_agent now a) = Agent.failed_tasks a.
Proof.
  unfold monitor_agent.
  destruct (Agent.status a); try done; by case_bool_decide.
Qed.

Lemma assign_batch_counters (g : Agent.t -> nat) (n i : nat)
    (m : AgentManager) (av : list string) (clock : nat -> Qc * Qc) :
  (∀ a v, g (Agent.set_status v a) = g a) ->
  (∀ a v, g (Agent.set_current_task v a) = g a) ->
  (∀ a v, g (Agent.set_last_activity v a) = g a) ->
  sum_list (g <$> dict_values (agents (assign_batch n i m av clock)))
  = sum_list (g <$> dict_values (agents m)).
Proof.
  intros H1 H2 H3.
  destruct (assign_batch_invariant
              (fun m' _ =>
                 sum_list (g <$> dict_values (agents m'))
                 = sum_list (g <$> dict_values (agents m))))
    with (n := n) (i := i) (m := m) (av := av) (clock := clock)
    as [_ H]; try done.
  intros m0 av0 task aid t1 t2 H0 _. unfold _assign_task_to_agent.
  destruct (dict_get (agents m0) aid); simpl; [|done].
  rewrite sum_update_same; [done|]. intros a. by rewrite H3, H2, H1.
Qed.

Lemma task_distributor_counters (m : AgentManager)
    (clock : nat -> Qc * Qc) :
  agents_completed (agents (_task_distributor m clock))
  = agents_completed (agents m)
  ∧ agents_failed (agents (_task_distributor m clock))
    = agents_failed (agents m).
Proof.
  unfold _task_distributor, agents_completed, agents_failed.
  destruct (task_queue m); [done|].
  destruct (idle_agents (agents m)); [done|].
  split; by apply assign_batch_counters.
Qed.

Lemma step_counters_agree (keys : list string) (m : AgentManager)
    (e : Event) :
  dict_keys (agents m) = keys -> addresses keys e ->
  counters_agree m -> counters_agree (step m e).
Proof.
  unfold counters_agree. intros Hk He [Hc Hf].
  destruct e; simpl; try done.
  - unfold start_execution. by destruct (is_running m).
  - destruct (is_running m); [|done].
    destruct (task_distributor_counters m clock) as [-> ->].
    by destruct (task_distributor_frame m clock) as (_ & -> & _).
  - destruct (is_running m); [|done]. simpl.
    unfold agents_completed, agents_failed.
    rewrite !sum_monitor; [done|intros a|intros a];
      by destruct (monitor_agent_counters now a).
  - destruct (is_running m); [|done]. unfold _performance_tracker.
    by destruct (0 <? _)%nat.
  - simpl in He. rewrite <- Hk in He.
    apply dict_get_is_Some in He as [a Ha].
    unfold agents_completed, agents_failed in *.
    pose proof (sum_update_Some Agent.completed_tasks (agents m) agent_id
                  (fun a => complete_agent a out execution_time now_activity)
                  a Ha) as H1.
    pose proof (sum_update_Some Agent.failed_tasks (agents m) agent_id
                  (fun a => complete_agent a out execution_time now_activity)
                  a Ha) as H2.
    destruct out as [r|msg]; simpl in *; [destruct (get_success r)|];
      simpl in *; lia.
Qed.

(** X8. In every state reached by a run from a newly initialised manager
    whose completions are those of agents of the pool, the completed count
    of the statistics is the sum of the agents' completed counts and the
    failed count is the sum of their failed counts. *)
Theorem run_counters_agree (n : Z) (clock : nat -> Qc) (now : Qc)
    (events : list Event) :
  let m0 := initialize (new_manager n) clock now in
  Forall (addresses (dict_keys (agents m0))) events ->
  let m := run m0 events in
  agents_completed (agents m) = Stats.completed_tasks (stats m)
  ∧ agents_failed (agents m) = Stats.failed_tasks (stats m).
Proof.
  intros m0 Hev m.
  assert (H : dict_keys (agents m) = dict_keys (agents m0)
              ∧ counters_agree m);
    [|by destruct H].
  apply (run_invariant
           (fun m => dict_keys (agents m) = dict_keys (agents m0)
                     ∧ counters_agree m)
           (addresses (dict_keys (agents m0)))); [| |done].
  - intros m' e [Hk Hc] He. split; [by rewrite step_keys|].
    by eapply step_counters_agree.
  - split; [done|]. subst m0.
    unfold counters_agree, agents_completed, agents_failed.
    destruct (initialize_new_frame n clock now) as (_ & _ & _ & _ & ->).
    destruct (initialize_new_agents n clock now) as (k & Hk & ->). simpl.
    do 6 (destruct k as [|k]; [done|]). lia.
Qed.

Lemma run_counters_agree_witness :
  let m :=
    run pool_ready
      [Submit scrape_job (Qc_of_Z 10); Start;
       Dispatch (fun _ => (Qc_of_Z 20, Qc_of_Z 20));
       Complete scrape_job_started "agent_1" (Returned mock_success)
         (Qc_of_Z 5) (Qc_of_Z 25) (Qc_of_Z 25)] in
  agents_completed (agents m) = Stats.completed_tasks (stats m).
Proof.
  intros m.
  refine (proj1 (run_counters_agree 1 (fun _ => Qc_of_Z 0) (Qc_of_Z 0)
                   _ _)).
  repeat constructor.
Defined.

(** *** The active map *)

Lemma assign_task_to_agent_dispatched (m : AgentManager) (task : Task.t)
    (agent_id : string) (t1 t2 : Qc) :
  agent_id ∈ dict_keys (agents m) ->
  active_dispatched m ->
  active_dispatched (_assign_task_to_agent m task agent_id t1 t2).
Proof.
  intros Hk Hm. unfold active_dispatched.
  destruct (assign_task_to_agent_frame m task agent_id t1 t2)
    as (_ & _ & _ & _ & ->).
  unfold _assign_task_to_agent.
  destruct (dict_get (agents m) agent_id); simpl; [|done].
  apply map_Forall_insert_2; [|done].
  split; [done|]. split; [done|]. by exists agent_id.
Qed.

Lemma assign_batch_dispatched (n i : nat) (m : AgentManager)
    (av : list string) (clock : nat -> Qc * Qc) :
  av ⊆ dict_keys (agents m) ->
  active_dispatched m ->
  active_dispatched (assign_batch n i m av clock).
Proof.
  intros Hav Hm.
  destruct (assign_batch_invariant
              (fun m' av' =>
                 av' ⊆ dict_keys (agents m') ∧ active_dispatched m'))
    with (n := n) (i := i) (m := m) (av := av) (clock := clock)
    as [_ [_ H]]; try done.
  intros m0 av0 task aid t1 t2 [Hsub H0] Hin. split.
  - destruct (assign_task_to_agent_frame m0 task aid t1 t2)
      as (_ & _ & _ & _ & ->).
    etrans; [apply list_remove_first_subseteq|done].
  - apply assign_task_to_agent_dispatched; [by apply Hsub|done].
Qed.

Lemma task_distributor_dispatched (m : AgentManager)
    (clock : nat -> Qc * Qc) :
  active_dispatched m -> active_dispatched (_task_distributor m clock).
Proof.
  intros Hm. unfold _task_distributor.
  destruct (task_queue m); [done|].
  destruct (idle_agents (agents m)) as [|c av] eqn:Hav; [done|].
  rewrite <- Hav. apply assign_batch_dispatched; [|done].
  intros k. apply idle_agents_keys.
Qed.

Lemma agent_monitor_keys (m : AgentManager) (now : Qc) :
  dict_keys (agents (_agent_monitor m now)) = dict_keys (agents m).
Proof.
  unfold dict_keys. simpl. rewrite <- list_fmap_compose.
  apply list_fmap_ext. by intros _ [? ?] _.
Qed.

Lemma step_active_dispatched (m : AgentManager) (e : Event) :
  active_dispatched m -> active_dispatched (step m e).
Proof.
  intros Hm. destruct e; simpl; try done.
  - unfold start_execution. by destruct (is_running m).
  - destruct (is_running m); [|done]. by apply task_distributor_dispatched.
  - destruct (is_running m); [|done].
    unfold active_dispatched. by rewrite agent_monitor_keys.
  - destruct (is_running m); [|done]. unfold _performance_tracker.
    by destruct (0 <? _)%nat.
  - unfold active_dispatched, _execute_task. simpl.
    rewrite dict_keys_update. by apply map_Forall_delete.
Qed.

(** X9. In every state a run reaches from a newly initialised manager,
    each task of the active map is stored under its own id, has its start
    time, and is assigned to an agent of the pool. *)
Theorem run_active_dispatched (n : Z) (clock : nat -> Qc) (now : Qc)
    (events : list Event) (k : string) (t : Task.t) :
  let m := run (initialize (new_manager n) clock now) events in
  active_tasks m !! k = Some t ->
  Task.id t = k
  ∧ Task.started_at t ≠ None
  ∧ ∃ agent_id,
      Task.assigned_agent t = Some agent_id
      ∧ is_Some (dict_get (agents m) agent_id).
Proof.
  intros m Hk.
  assert (H : active_dispatched m).
  { apply (run_invariant_all active_dispatched);
      [apply step_active_dispatched|].
    unfold active_dispatched.
    destruct (initialize_new_frame n clock now) as (_ & _ & -> & _).
    apply map_Forall_empty. }
  destruct (H k t Hk) as (Hid & Hst & aid & Ha & Hin).
  split; [done|]. split; [done|]. exists aid. split; [done|].
  by apply dict_get_is_Some.
Qed.

Lemma run_active_dispatched_witness :
  Task.assigned_agent scrape_job_started = Some "agent_1"
  ∧ Task.id scrape_job_started = "task-1".
Proof.
  split; [reflexivity|].
  apply (run_active_dispatched 1 (fun _ => Qc_of_Z 0) (Qc_of_Z 0)
           [Submit scrape_job (Qc_of_Z 10); Start;
            Dispatch (fun _ => (Qc_of_Z 20, Qc_of_Z 20))]
           "task-1" scrape_job_started).
  by vm_compute.
Defined.

(** *** Stopping *)

Lemma step_stopped (m : AgentManager) (e : Event) :
  is_running m = false -> e ≠ Start ->
  is_running (step m e) = false
  ∧ length (task_queue (step m e))
    = (length (task_queue m) + submissions [e])%nat
  ∧ dom (active_tasks (step m e)) ⊆ dom (active_tasks m)
  ∧ ∀ k, agent_field Agent.status (step m e) k = Some BUSY ->
         agent_field Agent.status m k = Some BUSY.
Proof.
  intros Hr He. destruct e; simpl; rewrite ?Hr; try done.
  - split; [done|]. split; [|by split].
    pose proof (sort_desc_perm
                  (task_queue m ++ [Task.set_created_at (Some now) task]))
      as Hp.
    apply Permutation_length in Hp. rewrite Hp, length_app. simpl. lia.
  - split; [done|]. split; [lia|].
    split; [rewrite dom_delete; set_solver|].
    intros k. unfold agent_field. simpl. rewrite dict_get_update.
    case_decide; [|done]. subst k.
    destruct (dict_get (agents m) agent_id) as [a|]; [|done]. simpl.
    destruct out as [r|msg]; simpl; [by destruct (get_success r)|done].
Qed.

(** X10. [stop_execution] prevents new assignments: in a run of a stopped
    manager in which [start_execution] is not called, the manager stays
    stopped, no task leaves the queue (it grows by the submissions), no task
    enters the active map, and no agent becomes BUSY; completions of tasks
    in flight are still recorded. *)
Theorem stopped_run_assigns_nothing (m : AgentManager)
    (events : list Event) :
  Forall (fun e => e ≠ Start) events ->
  let m' := run (stop_execution m) events in
  is_running m' = false
  ∧ length (task_queue m')
    = (length (task_queue m) + submissions events)%nat
  ∧ dom (active_tasks m') ⊆ dom (active_tasks m)
  ∧ ∀ k, agent_field Agent.status m' k = Some BUSY ->
         agent_field Agent.status m k = Some BUSY.
Proof.
  intros Hev.
  change (task_queue m) with (task_queue (stop_execution m)).
  change (active_tasks m) with (active_tasks (stop_execution m)).
  change (agent_field Agent.status m)
    with (agent_field Agent.status (stop_execution m)).
  assert (Hr : is_running (stop_execution m) = false) by done.
  revert Hr. generalize (stop_execution m). clear m.
  unfold run. induction Hev as [|e events He Hev IH]; intros m Hr; simpl.
  { split; [done|]. split; [lia|]. by split. }
  destruct (step_stopped m e Hr He) as (Hr' & Hq & Ha & Hb).
  destruct (IH (step m e) Hr') as (Hr'' & Hq' & Ha' & Hb').
  split; [done|]. split.
  - rewrite Hq', Hq. simpl. destruct e; simpl; lia.
  - split; [by etrans|]. intros k Hk. by apply Hb, Hb'.
Qed.

Lemma stopped_run_assigns_nothing_witness :
  length
    (task_queue
       (run (stop_execution pool_ready)
          [Submit scrape_job (Qc_of_Z 10);
           Dispatch (fun _ => (Qc_of_Z 20, Qc_of_Z 20))])) = 1%nat.
Proof.
  apply (stopped_run_assigns_nothing pool_ready
           [Submit scrape_job (Qc_of_Z 10);
            Dispatch (fun _ => (Qc_of_Z 20, Qc_of_Z 20))]).
  by repeat constructor.
Defined.

(** ** The score, continued *)

Lemma Qc_of_nat_le (a b : nat) :
  (a <= b)%nat -> (Qc_of_nat a <= Qc_of_nat b)%Qc.
Proof.
  intros H. unfold Qc_of_nat. apply (proj1 (Z2Qc_inj_le _ _)). lia.
Qed.

Lemma Qc_of_nat_pos (a : nat) : (0 < a)%nat -> (0 < Qc_of_nat a)%Qc.
Proof.
  intros H. rewrite <- Z2Qc_inj_0. unfold Qc_of_nat.
  apply (proj1 (Z2Qc_inj_lt _ _)). lia.
Qed.

Lemma Qc_of_nat_nonneg (a : nat) : (0 <= Qc_of_nat a)%Qc.
Proof. rewrite <- Qc_of_nat_0. apply Qc_of_nat_le. lia. Qed.

Lemma rate_pos (c f : nat) :
  (0 < c)%nat -> (0 < Qc_of_nat c / Qc_of_nat (c + f))%Qc.
Proof.
  intros Hc. unfold Qcdiv. apply Qcmult_pos_pos; [by apply Qc_of_nat_pos|].
  apply Qcinv_pos, Qc_of_nat_pos. lia.
Qed.

Lemma rate_le_1 (c f : nat) :
  (0 < c)%nat -> (Qc_of_nat c / Qc_of_nat (c + f) <= 1)%Qc.
Proof.
  intros Hc.
  assert (Hpos : (0 < Qc_of_nat (c + f))%Qc) by (apply Qc_of_nat_pos; lia).
  rewrite <- (Qcmult_inv_r (Qc_of_nat (c + f)))
    by (intros H0; rewrite H0 in Hpos; by apply Qclt_not_eq in Hpos).
  unfold Qcdiv. apply Qcmult_le_compat_r; [apply Qc_of_nat_le; lia|].
  by apply Qclt_le_weak, Qcinv_pos.
Qed.

Lemma agent_score_fresh (a : Agent.t) (task : Task.t) :
  Agent.completed_tasks a = 0%nat ->
  agent_score a task
  = (Qc_of_nat (matching_capabilities a task) * Qc_of_Z 10 + Qc_of_Z 5)%Qc.
Proof.
  intros Hc. unfold agent_score. rewrite Hc. simpl.
  rewrite Z2Qc_inj_0. ring.
Qed.

Lemma agent_score_used (a : Agent.t) (task : Task.t) :
  (0 < Agent.completed_tasks a)%nat ->
  agent_score a task
  = (Qc_of_nat (matching_capabilities a task) * Qc_of_Z 10
     - Qc_of_nat (Agent.completed_tasks a) * one_tenth
     + Qc_of_nat (Agent.completed_tasks a)
       / Qc_of_nat (Agent.completed_tasks a + Agent.failed_tasks a)
       * Qc_of_Z 5)%Qc.
Proof.
  intros Hc. unfold agent_score.
  destruct (Agent.completed_tasks a) as [|c] eqn:Hca; [lia|].
  change (S c =? 0)%nat with false. change (0 <? S c)%nat with true.
  cbv zeta. cbv iota. rewrite Z2Qc_inj_0. ring.
Qed.

Lemma five_pos : (0 < Qc_of_Z 5)%Qc.
Proof. done. Qed.

Lemma ten_pos : (0 < Qc_of_Z 10)%Qc.
Proof. done. Qed.

Lemma one_tenth_pos : (0 < one_tenth)%Qc.
Proof. done. Qed.

(** With no completed task an agent scores above every agent that has
    completed some and matches no more capabilities. *)
Lemma agent_score_fresh_gt (a b : Agent.t) (task : Task.t) :
  Agent.completed_tasks a = 0%nat ->
  (0 < Agent.completed_tasks b)%nat ->
  (matching_capabilities b task <= matching_capabilities a task)%nat ->
  (agent_score b task < agent_score a task)%Qc.
Proof.
  intros Ha Hb Hm.
  rewrite (agent_score_fresh a) by done.
  rewrite (agent_score_used b) by done.
  set (ma := Qc_of_nat (matching_capabilities a task)).
  set (mb := Qc_of_nat (matching_capabilities b task)).
  set (c := Qc_of_nat (Agent.completed_tasks b)).
  set (r := (c / Qc_of_nat (Agent.completed_tasks b + Agent.failed_tasks b))%Qc).
  apply (proj2 (Qclt_minus_iff _ _)).
  replace (ma * Qc_of_Z 10 + Qc_of_Z 5
           + - (mb * Qc_of_Z 10 - c * one_tenth + r * Qc_of_Z 5))%Qc
    with (c * one_tenth
          + ((ma + - mb) * Qc_of_Z 10 + (1 + - r) * Qc_of_Z 5))%Qc by ring.
  apply Qcplus_pos_nonneg.
  - apply Qcmult_pos_pos; [by apply Qc_of_nat_pos|apply one_tenth_pos].
  - apply Qcplus_nonneg_nonneg.
    + apply Qcmult_nonneg_nonneg; [|by apply Qclt_le_weak, ten_pos].
      apply (proj1 (Qcle_minus_iff _ _)). by apply Qc_of_nat_le.
    + apply Qcmult_nonneg_nonneg; [|by apply Qclt_le_weak, five_pos].
      apply (proj1 (Qcle_minus_iff _ _)). by apply rate_le_1.
Qed.

(** An agent with at most ten completed tasks scores above [-1]. *)
Lemma agent_score_light (a : Agent.t) (task : Task.t) :
  (Agent.completed_tasks a <= 10)%nat ->
  (Qc_of_Z (-1) < agent_score a task)%Qc.
Proof.
  intros Hc. apply (proj2 (Qclt_minus_iff _ _)).
  set (ma := Qc_of_nat (matching_capabilities a task)).
  assert (Hma : (0 <= ma * Qc_of_Z 10)%Qc).
  { apply Qcmult_nonneg_nonneg; [apply Qc_of_nat_nonneg|].
    by apply Qclt_le_weak, ten_pos. }
  replace (- Qc_of_Z (-1))%Qc with 1%Qc by (by apply Qc_is_canon).
  destruct (Agent.completed_tasks a) as [|c] eqn:Hca.
  - rewrite (agent_score_fresh a) by done. fold ma.
    replace (ma * Qc_of_Z 10 + Qc_of_Z 5 + 1)%Qc
      with (Qc_of_Z 5 + 1 + ma * Qc_of_Z 10)%Qc by ring.
    apply Qcplus_pos_nonneg; [|done].
    apply Qcplus_pos_pos; [apply five_pos|done].
  - rewrite (agent_score_used a) by lia. fold ma. rewrite Hca.
    set (r := (Qc_of_nat (S c)
               / Qc_of_nat (S c + Agent.failed_tasks a))%Qc).
    replace (ma * Qc_of_Z 10 - Qc_of_nat (S c) * one_tenth + r * Qc_of_Z 5
             + 1)%Qc
      with (r * Qc_of_Z 5
            + (ma * Qc_of_Z 10
               + (1 + - (Qc_of_nat (S c) * one_tenth))))%Qc by ring.
    apply Qcplus_pos_nonneg.
    + apply Qcmult_pos_pos; [apply rate_pos; lia|apply five_pos].
    + apply Qcplus_nonneg_nonneg; [done|].
      apply (proj1 (Qcle_minus_iff _ _)).
      replace 1%Qc with (Qc_of_nat 10 * one_tenth)%Qc
        by (by apply Qc_is_canon).
      apply Qcmult_le_compat_r; [by apply Qc_of_nat_le|].
      by apply Qclt_le_weak, one_tenth_pos.
Qed.

(** ** The selector, concluded *)

Lemma subseteq_keys_Forall (ags : list (string * Agent.t))
    (cands : list string) :
  cands ⊆ dict_keys ags -> Forall (fun c => is_Some (dict_get ags c)) cands.
Proof.
  intros Hsub. apply Forall_forall. intros c Hc.
  by apply dict_get_is_Some, Hsub.
Qed.



Lemma select_two (m : AgentManager) (task : Task.t) (x y : string)
    (ax ay : Agent.t) :
  dict_get (agents m) x = Some ax ->
  dict_get (agents m) y = Some ay ->
  _select_best_agent m task [x; y]
  = Return
      (if bool_decide (Qc_of_Z (-1) < agent_score ax task)%Qc then
         if bool_decide (agent_score ax task < agent_score ay task)%Qc
         then Some y else Some x
       else if bool_decide (Qc_of_Z (-1) < agent_score ay task)%Qc
            then Some y else None).
Proof.
  intros Hx Hy. unfold _select_best_agent. simpl. rewrite Hx, Hy.
  by repeat case_bool_decide.
Qed.

(** X12. Load spreading: an agent with no completed task scores strictly
    above an agent that has completed some and matches no more of the
    required capabilities, so of these two candidates the selector takes
    the unused one, in whichever order they are listed. *)
Theorem select_prefers_unused_agent (m : AgentManager) (task : Task.t)
    (x y : string) (a b : Agent.t) :
  dict_get (agents m) x = Some a ->
  dict_get (agents m) y = Some b ->
  Agent.completed_tasks a = 0%nat ->
  (0 < Agent.completed_tasks b)%nat ->
  (matching_capabilities b task <= matching_capabilities a task)%nat ->
  (agent_score b task < agent_score a task)%Qc
  ∧ _select_best_agent m task [x; y] = Return (Some x)
  ∧ _select_best_agent m task [y; x] = Return (Some x).
Proof.
  intros Hx Hy Ha Hb Hm.
  assert (Hlt : (agent_score b task < agent_score a task)%Qc)
    by by apply agent_score_fresh_gt.
  assert (Hlight : (Qc_of_Z (-1) < agent_score a task)%Qc)
    by (apply agent_score_light; lia).
  split; [done|]. split.
  - rewrite (select_two m task x y a b) by done.
    rewrite (bool_decide_eq_true_2 _ Hlight).
    rewrite bool_decide_eq_false_2; [done|].
    by apply Qcle_not_lt, Qclt_le_weak.
  - rewrite (select_two m task y x b a) by done.
    rewrite (bool_decide_eq_true_2 _ Hlt), (bool_decide_eq_true_2 _ Hlight).
    by case_bool_decide.
Qed.

Lemma select_prefers_unused_agent_witness :
  let used :=
    Agent.mk "agent_1" "WebScraper" IDLE None 10 0 (Qc_of_Z 50) (Qc_of_Z 90)
      ["scraping"; "data_extraction"; "screenshots"] 1 in
  let unused :=
    Agent.mk "agent_2" "WebScraper" IDLE None 0 0 (Qc_of_Z 0) (Qc_of_Z 0)
      ["scraping"; "data_extraction"; "screenshots"] 1 in
  let m :=
    mkManager 2 [("agent_1", used); ("agent_2", unused)] [] [] ∅ true
      (Stats.mk 10 10 0 (Qc_of_Z 0) (Qc_of_Z 0)) in
  _select_best_agent m scrape_job ["agent_1"; "agent_2"]
  = Return (Some "agent_2").
Proof.
  intros used unused m.
  apply (select_prefers_unused_agent m scrape_job "agent_2" "agent_1"
           unused used); try reflexivity; simpl; lia.
Defined.

(** X13. An agent with at most ten completed tasks always scores above
    [-1]: whenever such an agent is among the candidates the selector
    returns a candidate, never nothing. *)
Theorem select_finds_light_agent (m : AgentManager) (task : Task.t)
    (cands : list string) (c : string) (a : Agent.t) :
  cands ⊆ dict_keys (agents m) ->
  c ∈ cands ->
  dict_get (agents m) c = Some a ->
  (Agent.completed_tasks a <= 10)%nat ->
  (Qc_of_Z (-1) < agent_score a task)%Qc
  ∧ ∃ c', _select_best_agent m task cands = Return (Some c') ∧ c' ∈ cands.
Proof.
  intros Hsub Hc Ha Hlight.
  assert (Hs : (Qc_of_Z (-1) < agent_score a task)%Qc)
    by by apply agent_score_light.
  split; [done|]. unfold _select_best_agent.
  destruct (select_loop_spec (agents m) task cands None (Qc_of_Z (-1))
              (subseteq_keys_Forall _ _ Hsub))
    as (r & Hr & [[-> Hall]|(c' & -> & Hgt & pre & post & -> & _)]).
  - rewrite Forall_forall in Hall. specialize (Hall c Hc).
    unfold score_of in Hall. rewrite Ha in Hall. simpl in Hall.
    by apply Qcle_not_lt in Hall.
  - exists c'. split; [done|]. apply elem_of_app. right. by left.
Qed.

Lemma select_finds_light_agent_witness :
  ∃ c', _select_best_agent pool_ready health_check ["agent_1"]
        = Return (Some c') ∧ c' ∈ ["agent_1"].
Proof.
  apply (select_finds_light_agent pool_ready health_check ["agent_1"]
           "agent_1"
           (Agent.mk "agent_1" "WebScraper" IDLE None 0 0 (Qc_of_Z 0)
              (Qc_of_Z 0) ["scraping"; "data_extraction"; "screenshots"] 1)).
  - apply (bool_decide_unpack _). by vm_compute.
  - by left.
  - reflexivity.
  - simpl. lia.
Defined.

(** ** When the dispatcher loses no task *)

Lemma list_remove_first_length (x : string) (l : list string) :
  x ∈ l -> S (length (list_remove_first x l)) = length l.
Proof.
  induction l as [|y l IH]; [by intros ?%elem_of_nil|].
  simpl list_remove_first. case_decide as Hy; [done|].
  intros [?|Hx]%elem_of_cons; [congruence|]. simpl. by rewrite IH.
Qed.

Lemma assign_task_to_agent_light (m : AgentManager) (task : Task.t)
    (agent_id : string) (t1 t2 : Qc) :
  light_pool m -> light_pool (_assign_task_to_agent m task agent_id t1 t2).
Proof.
  unfold light_pool, _assign_task_to_agent. intros Hm k a.
  destruct (dict_get (agents m) agent_id); simpl; [|apply Hm].
  rewrite dict_get_update. case_decide; [|apply Hm].
  destruct (dict_get (agents m) k) as [a0|] eqn:Hk; [|done].
  intros [= <-]. simpl. by eapply Hm.
Qed.

Lemma assign_task_to_agent_active_mono (m : AgentManager) (task : Task.t)
    (agent_id k : string) (t1 t2 : Qc) :
  is_Some (active_tasks m !! k) ->
  is_Some (active_tasks (_assign_task_to_agent m task agent_id t1 t2) !! k).
Proof.
  unfold _assign_task_to_agent.
  destruct (dict_get (agents m) agent_id); simpl; [|done].
  intros Hk. rewrite lookup_insert. by case_decide.
Qed.

Lemma assign_batch_active_mono (n i : nat) (m : AgentManager)
    (av : list string) (clock : nat -> Qc * Qc) (k : string) :
  is_Some (active_tasks m !! k) ->
  is_Some (active_tasks (assign_batch n i m av clock) !! k).
Proof.
  intros Hk.
  destruct (assign_batch_invariant
              (fun m' _ => is_Some (active_tasks m' !! k)))
    with (n := n) (i := i) (m := m) (av := av) (clock := clock)
    as [_ H]; try done.
  intros m0 av0 task aid t1 t2 H0 _.
  by apply assign_task_to_agent_active_mono.
Qed.

Lemma assign_batch_no_loss (n : nat) :
  ∀ i m av clock,
    av ⊆ dict_keys (agents m) -> "" ∉ av -> (n <= length av)%nat ->
    light_pool m ->
    ∀ t, t ∈ take n (task_queue m) ->
         is_Some (active_tasks (assign_batch n i m av clock) !! Task.id t).
Proof.
  induction n as [|n IH]; intros i m av clock Hsub Hne Hlen Hlight t Ht.
  { by apply elem_of_nil in Ht. }
  simpl. destruct (task_queue m) as [|task q] eqn:Hq.
  { by apply elem_of_nil in Ht. }
  destruct av as [|c0 av0] eqn:Hav; [simpl in Hlen; lia|]. rewrite <- Hav in *.
  assert (Hc0 : c0 ∈ av) by (rewrite Hav; by left).
  assert (Hk0 : is_Some (dict_get (agents m) c0))
    by (by apply dict_get_is_Some, Hsub).
  destruct Hk0 as [a0 Ha0].
  assert (Hsel : ∃ c', _select_best_agent (set_task_queue q m) task av
                       = Return (Some c') ∧ c' ∈ av).
  { unfold _select_best_agent. simpl.
    destruct (select_loop_spec (agents m) task av None (Qc_of_Z (-1))
                (subseteq_keys_Forall _ _ Hsub))
      as (r & Hr & [[-> Hall]|(c' & -> & Hgt & pre & post & Heq & _)]).
    - rewrite Forall_forall in Hall. specialize (Hall c0 Hc0).
      unfold score_of in Hall. rewrite Ha0 in Hall. simpl in Hall.
      apply Qcle_not_lt in Hall. destruct Hall.
      apply agent_score_light. by eapply Hlight.
    - exists c'. split; [done|]. rewrite Heq.
      apply elem_of_app. right. by left. }
  destruct Hsel as (c' & -> & Hc').
  rewrite decide_False by (intros ->; done).
  set (m2 := _assign_task_to_agent (set_task_queue q m) task c'
               (clock i).1 (clock i).2).
  destruct (assign_task_to_agent_frame (set_task_queue q m) task c'
              (clock i).1 (clock i).2) as (Hq2 & _ & _ & _ & Hk2).
  fold m2 in Hq2, Hk2. simpl in Hq2, Hk2.
  rewrite firstn_cons in Ht. apply elem_of_cons in Ht as [->|Ht].
  - apply assign_batch_active_mono.
    destruct (assign_task_to_agent_active (set_task_queue q m) task c'
                (clock i).1 (clock i).2) as (Hact & _).
    { by apply dict_get_is_Some, Hsub. }
    fold m2 in Hact. by rewrite Hact.
  - apply IH; try done.
    + rewrite Hk2. etrans; [apply list_remove_first_subseteq|done].
    + intros Hin. by apply Hne, (list_remove_first_subseteq c').
    + pose proof (list_remove_first_length c' av Hc'). lia.
    + by apply assign_task_to_agent_light.
    + by rewrite Hq2.
Qed.

(** X14. While every agent of the pool has completed at most ten tasks
    (and no agent has the empty string for a key), a turn of the dispatcher
    loses no task: each of the [min(len(queue), len(idle agents))] tasks it
    takes off the queue is in the active map when the turn ends. *)
Theorem task_distributor_no_loss (m : AgentManager)
    (clock : nat -> Qc * Qc) (t : Task.t) :
  light_pool m ->
  "" ∉ dict_keys (agents m) ->
  t ∈ take (Nat.min (length (task_queue m))
              (length (idle_agents (agents m)))) (task_queue m) ->
  is_Some (active_tasks (_task_distributor m clock) !! Task.id t).
Proof.
  intros Hlight Hne Ht. unfold _task_distributor.
  destruct (task_queue m) as [|t0 q] eqn:Hq; [by apply elem_of_nil in Ht|].
  destruct (idle_agents (agents m)) as [|c av] eqn:Hav.
  { rewrite Nat.min_0_r in Ht. by apply elem_of_nil in Ht. }
  rewrite <- Hq, <- Hav in *. apply assign_batch_no_loss; try done.
  - intros k. apply idle_agents_keys.
  - intros Hin. by apply Hne, idle_agents_keys.
  - lia.
Qed.

Lemma task_distributor_no_loss_witness :
  is_Some
    (active_tasks
       (_task_distributor (add_task pool_ready scrape_job (Qc_of_Z 10))
          (fun _ => (Qc_of_Z 20, Qc_of_Z 20))) !! "task-1").
Proof.
  apply (task_distributor_no_loss
           (add_task pool_ready scrape_job (Qc_of_Z 10)) _
           (Task.set_created_at (Some (Qc_of_Z 10)) scrape_job)).
  - intros k a. simpl. case_decide; [|done]. intros [= <-]. simpl. lia.
  - apply (bool_decide_unpack _). by vm_compute.
  - by left.
Defined.

(** ** The health monitor, continued *)

Lemma monitor_agent_idempotent (now : Qc) (a : Agent.t) :
  monitor_agent now (monitor_agent now a) = monitor_agent now a.
Proof.
  unfold monitor_agent.
  destruct (Agent.status a) eqn:Hs; rewrite ?Hs; try done;
    case_bool_decide as Hd; simpl; rewrite ?Hs; try done;
    by rewrite bool_decide_eq_false_2.
Qed.

Lemma monitor_agent_settled (now : Qc) (a : Agent.t) :
  ¬ stuck now (monitor_agent now a) ∧ ¬ recoverable now (monitor_agent now a).
Proof.
  unfold stuck, recoverable, monitor_agent.
  destruct (Agent.status a) eqn:Hs; rewrite ?Hs;
    try (split; intros [? ?]; congruence);
    case_bool_decide as Hd; simpl; rewrite ?Hs;
    split; intros [? ?]; congruence.
Qed.

Lemma monitor_agent_reclaims (now : Qc) (a : Agent.t) :
  stuck now a ∨ recoverable now a ->
  Agent.status (monitor_agent now a) = IDLE.
Proof.
  intros [H|H].
  - by rewrite monitor_agent_stuck.
  - by rewrite monitor_agent_recoverable.
Qed.

(** X15. After a sweep of the health monitor at time [now] no agent is
    BUSY beyond the stuck threshold or in ERROR beyond the recovery
    threshold at [now]; every agent the sweep reclaims is among the idle
    agents the dispatcher sees next; and a second sweep at the same time
    changes nothing. *)
Theorem agent_monitor_settles (m : AgentManager) (now : Qc) :
  let m' := _agent_monitor m now in
  Forall (fun kv => ¬ stuck now kv.2 ∧ ¬ recoverable now kv.2) (agents m')
  ∧ (∀ k a, (k, a) ∈ agents m -> stuck now a ∨ recoverable now a ->
            k ∈ idle_agents (agents m'))
  ∧ _agent_monitor m' now = m'.
Proof.
  intros m'. split; [|split].
  - subst m'. simpl. apply Forall_fmap, Forall_forall.
    intros [k a] _. simpl. apply monitor_agent_settled.
  - intros k a Hin Hs. subst m'. unfold idle_agents. simpl.
    apply list_elem_of_fmap. exists (k, monitor_agent now a).
    split; [done|]. apply list_elem_of_filter. split.
    + simpl. by apply monitor_agent_reclaims.
    + apply list_elem_of_fmap. by exists (k, a).
  - subst m'. unfold _agent_monitor, set_agents. simpl. f_equal.
    rewrite <- list_fmap_compose. apply list_fmap_ext.
    intros _ [k a] _. unfold prod_map. simpl.
    by rewrite monitor_agent_idempotent.
Qed.

Lemma agent_monitor_settles_witness :
  "agent_1" ∈ idle_agents (agents (_agent_monitor pool_busy (Qc_of_Z 55))).
Proof.
  destruct (agent_monitor_settles pool_busy (Qc_of_Z 55)) as (_ & H & _).
  apply (H "agent_1"
           (Agent.mk "agent_1" "WebScraper" BUSY (Some "task-1") 0 0
              (Qc_of_Z 0) (Qc_of_Z 20)
              ["scraping"; "data_extraction"; "screenshots"] 1)).
  - vm_compute. by left.
  - left. split; [reflexivity|by vm_compute].
Defined.

(** ** The status report, continued *)

Lemma tasks_by_priority_sum (l : list Task.t) :
  (length (filter (fun t => Task.priority t = LOW) l)
   + length (filter (fun t => Task.priority t = NORMAL) l)
   + length (filter (fun t => Task.priority t = HIGH) l)
   + length (filter (fun t => Task.priority t = CRITICAL) l))%nat
  = length l.
Proof.
  induction l as [|t l IH]; [done|].
  rewrite !filter_cons.
  destruct (Task.priority t); repeat case_decide; try done; simpl; lia.
Qed.

Lemma status_counts_le (l : list Agent.t) :
  (length (filter (fun a => Agent.status a = BUSY) l)
   + length (filter (fun a => Agent.status a = IDLE) l)
   + length (filter (fun a => Agent.status a = ERROR
                              ∨ Agent.status a = OFFLINE) l))%nat
  = length l.
Proof.
  induction l as [|a l IH]; [done|].
  rewrite !filter_cons.
  destruct (Agent.status a) eqn:Hs; repeat case_decide; simpl;
    try lia; naive_solver.
Qed.

(** X16. In every status report the per-priority counts of queued tasks
    add up to the number of pending tasks, the busy and idle agent counts
    add up to the number of agents less those in ERROR or OFFLINE, there is
    one agent entry for each agent, under its key and in dictionary order,
    and the queue figures are the sizes of the three task collections. *)
Theorem status_report_counts (m : AgentManager) (now : Qc) :
  let r := get_status_report m now in
  sum_list (snd <$> tasks_by_priority (r_queue r))
  = pending_tasks (r_queue r)
  ∧ fst <$> tasks_by_priority (r_queue r) = [LOW; NORMAL; HIGH; CRITICAL]
  ∧ pending_tasks (r_queue r) = length (task_queue m)
  ∧ q_active_tasks (r_queue r) = size (active_tasks m)
  ∧ q_completed_tasks (r_queue r) = length (completed_tasks m)
  ∧ (active_agents (r_statistics r) + o_idle_agents (r_statistics r)
     + length (filter (fun a => Agent.status a = ERROR
                                ∨ Agent.status a = OFFLINE)
                 (dict_values (agents m))))%nat
    = length (agents m)
  ∧ fst <$> r_agents r = dict_keys (agents m)
  ∧ r_timestamp r = now.
Proof.
  intros r. split_and!; try done.
  - subst r. simpl. pose proof (tasks_by_priority_sum (task_queue m)). lia.
  - subst r. simpl. rewrite status_counts_le. unfold dict_values.
    by rewrite length_fmap.
  - subst r. simpl. unfold dict_keys. rewrite <- list_fmap_compose.
    apply list_fmap_ext. by intros _ [? ?] _.
Qed.

Lemma Qc_ratio_le_1 (a b : nat) :
  (a <= b)%nat -> (0 < b)%nat -> (Qc_of_nat a / Qc_of_nat b <= 1)%Qc.
Proof.
  intros Hab Hb.
  assert (Hpos : (0 < Qc_of_nat b)%Qc) by by apply Qc_of_nat_pos.
  rewrite <- (Qcmult_inv_r (Qc_of_nat b))
    by (intros H0; rewrite H0 in Hpos; by apply Qclt_not_eq in Hpos).
  unfold Qcdiv. apply Qcmult_le_compat_r; [by apply Qc_of_nat_le|].
  by apply Qclt_le_weak, Qcinv_pos.
Qed.

Lemma Qc_ratio_nonneg (a b : nat) :
  (0 < b)%nat -> (0 <= Qc_of_nat a / Qc_of_nat b)%Qc.
Proof.
  intros Hb. unfold Qcdiv.
  apply Qcmult_nonneg_nonneg; [apply Qc_of_nat_nonneg|].
  by apply Qclt_le_weak, Qcinv_pos, Qc_of_nat_pos.
Qed.

(** X17. The per-agent entry of the report never divides by zero: the
    success rate lies between 0 and 100, it is 0 for an agent without a
    completed task and 100 for an agent with completed tasks and no failure;
    the average execution time of an agent without a completed task is its
    total execution time. *)
Theorem agent_summary_rates (a : Agent.t) :
  let s := agent_summary a in
  (0 <= sum_success_rate s)%Qc
  ∧ (sum_success_rate s <= Qc_of_Z 100)%Qc
  ∧ (Agent.completed_tasks a = 0%nat -> sum_success_rate s = 0%Qc)
  ∧ ((0 < Agent.completed_tasks a)%nat -> Agent.failed_tasks a = 0%nat ->
     sum_success_rate s = Qc_of_Z 100)
  ∧ (Agent.completed_tasks a = 0%nat ->
     sum_average_execution_time s = Agent.total_execution_time a).
Proof.
  simpl.
  set (c := Agent.completed_tasks a). set (f := Agent.failed_tasks a).
  assert (Hmax : (0 < Nat.max (c + f) 1)%nat) by lia.
  assert (H100 : (0 <= Qc_of_Z 100)%Qc) by done.
  split_and!.
  - apply Qcmult_nonneg_nonneg; [by apply Qc_ratio_nonneg|done].
  - replace (Qc_of_Z 100) with (1 * Qc_of_Z 100)%Qc at 2 by ring.
    apply Qcmult_le_compat_r; [|done]. apply Qc_ratio_le_1; lia.
  - intros ->. rewrite Qc_of_nat_0. unfold Qcdiv. ring.
  - intros Hc ->. replace (Nat.max (c + 0) 1) with c by lia.
    unfold Qcdiv. rewrite Qcmult_inv_r; [ring|].
    intros H0. pose proof (Qc_of_nat_pos c Hc) as Hpos.
    rewrite H0 in Hpos. by apply Qclt_not_eq in Hpos.
  - intros ->. simpl. unfold Qcdiv.
    replace (/ Qc_of_nat 1)%Qc with 1%Qc by (by apply Qc_is_canon). ring.
Qed.

Lemma agent_summary_rates_witness :
  sum_success_rate (agent_summary worn_scraper) = Qc_of_Z 100.
Proof.
  destruct (agent_summary_rates worn_scraper) as (_ & _ & _ & H & _).
  apply H; [simpl; lia|reflexivity].
Defined.

(** ** The queue, continued *)

Lemma insert_desc_front (y : Task.t) (l : list Task.t) :
  Forall (prio_ge y) l -> insert_desc y l = y :: l.
Proof.
  destruct l as [|z l]; [done|]. intros [Hz _]%Forall_cons. simpl.
  unfold prio_ge, sort_key in *.
  by rewrite (proj2 (Z.ltb_ge _ _)).
Qed.

Lemma filter_all {A : Type} (P : A -> Prop) `{∀ x, Decision (P x)}
    (l : list A) :
  Forall P l -> filter P l = l.
Proof.
  induction 1 as [|x l Hx Hl IH]; [done|].
  by rewrite filter_cons_True, IH.
Qed.

Lemma filter_none {A : Type} (P : A -> Prop) `{∀ x, Decision (P x)}
    (l : list A) :
  Forall (fun x => ¬ P x) l -> filter P l = [].
Proof.
  induction 1 as [|x l Hx Hl IH]; [done|].
  by rewrite filter_cons_False.
Qed.

Lemma sort_desc_snoc (q : list Task.t) (x : Task.t) :
  StronglySorted prio_ge q ->
  sort_desc (q ++ [x])
  = filter (fun t => (sort_key x <= sort_key t)%Z) q
    ++ x :: filter (fun t => (sort_key t < sort_key x)%Z) q.
Proof.
  unfold sort_desc. rewrite foldr_app. simpl.
  induction 1 as [|y q Hq IH Hy]; [done|].
  simpl. rewrite IH. rewrite !filter_cons.
  destruct (decide (sort_key x <= sort_key y)%Z) as [Hxy|Hxy].
  - rewrite decide_False by lia.
    apply insert_desc_front. apply Forall_app. split.
    + apply Forall_forall. intros z [_ Hz]%list_elem_of_filter.
      by eapply Forall_forall in Hy.
    + constructor; [unfold prio_ge, sort_key in *; lia|].
      apply Forall_forall. intros z [_ Hz]%list_elem_of_filter.
      by eapply Forall_forall in Hy.
  - rewrite decide_True by lia.
    assert (Hlow : Forall (fun t => (sort_key t < sort_key x)%Z) q).
    { eapply Forall_impl; [exact Hy|]. unfold prio_ge, sort_key.
      intros z Hz. unfold sort_key in Hxy. lia. }
    rewrite (filter_all _ q Hlow).
    rewrite (filter_none (fun t => (sort_key x <= sort_key t)%Z) q)
      by (eapply Forall_impl; [exact Hlow|]; simpl; intros; lia).
    simpl. rewrite (proj2 (Z.ltb_lt _ _)) by lia.
    by rewrite insert_desc_front.
Qed.

(** X18. Submitting to a queue that is sorted (as the queue of a run
    always is) moves no queued task: the new task goes behind the queued
    tasks of the same or a higher priority and in front of those of a lower
    priority, which keep their order. *)
Theorem add_task_inserts_in_place (m : AgentManager) (task : Task.t)
    (now : Qc) :
  StronglySorted prio_ge (task_queue m) ->
  task_queue (add_task m task now)
  = filter (fun t => (sort_key task <= sort_key t)%Z) (task_queue m)
    ++ Task.set_created_at (Some now) task
    :: filter (fun t => (sort_key t < sort_key task)%Z) (task_queue m).
Proof.
  intros Hs. rewrite add_task_queue. by rewrite sort_desc_snoc.
Qed.

Lemma add_task_inserts_in_place_witness :
  Task.id <$> task_queue
                (add_task (add_task pool_ready form_job (Qc_of_Z 1))
                   scrape_job (Qc_of_Z 2))
  = ["task-1"; "task-2"].
Proof.
  rewrite (add_task_inserts_in_place
             (add_task pool_ready form_job (Qc_of_Z 1)) scrape_job
             (Qc_of_Z 2)); [reflexivity|].
  vm_compute. repeat constructor; discriminate.
Defined.

(** ** Initialisation, continued *)

Lemma create_agents_frame (clock : nat -> Qc) (l : list nat) :
  ∀ m,
    let m' := foldl (fun m i => create_agent m i (clock i)) m l in
    task_queue m' = task_queue m
    ∧ completed_tasks m' = completed_tasks m
    ∧ active_tasks m' = active_tasks m
    ∧ is_running m' = is_running m
    ∧ stats m' = stats m
    ∧ max_agents m' = max_agents m.
Proof.
  induction l as [|i l IH]; intros m; simpl; [done|].
  destruct (IH (create_agent m i (clock i))) as (? & ? & ? & ? & ? & ?).
  unfold create_agent in *. by destruct (agent_configs !! i).
Qed.

Lemma init_range_cases (m : AgentManager) :
  ∃ k, (k <= 5)%nat ∧ init_range m = seq 0 k
       ∧ ∀ i, (i < 5)%nat -> (Z.of_nat i < max_agents m)%Z -> (i < k)%nat.
Proof.
  exists (Z.to_nat (Z.min (max_agents m) 5)). unfold init_range.
  change (Z.of_nat (length agent_configs)) with 5%Z.
  split; [lia|]. split; [done|]. lia.
Qed.

Lemma agent_key_inj (i j : nat) : agent_key i = agent_key j -> i = j.
Proof.
  unfold agent_key. intros H. simplify_eq/=. lia.
Qed.

Lemma create_agent_get (m : AgentManager) (i : nat) (now : Qc)
    (key : string) :
  dict_get (agents (create_agent m i now)) key
  = match agent_configs !! i with
    | Some config =>
        if decide (agent_key i = key) then Some (new_agent i config now)
        else dict_get (agents m) key
    | None => dict_get (agents m) key
    end.
Proof.
  unfold create_agent. destruct (agent_configs !! i) as [config|]; [|done].
  simpl. by rewrite dict_get_set.
Qed.

Lemma create_agents_get_other (clock : nat -> Qc) (key : string)
    (l : list nat) :
  ∀ m,
    (∀ i, i ∈ l -> agent_key i ≠ key) ->
    dict_get (agents (foldl (fun m i => create_agent m i (clock i)) m l)) key
    = dict_get (agents m) key.
Proof.
  induction l as [|j l IH]; intros m Hl; simpl; [done|].
  rewrite IH by (intros i Hi; apply Hl; by right).
  rewrite create_agent_get. destruct (agent_configs !! j); [|done].
  rewrite decide_False; [done|]. apply Hl. by left.
Qed.

Lemma create_agents_get_in (clock : nat -> Qc) (i : nat)
    (config : string * list string) (l : list nat) :
  ∀ m,
    NoDup l -> i ∈ l -> agent_configs !! i = Some config ->
    dict_get (agents (foldl (fun m i => create_agent m i (clock i)) m l))
      (agent_key i)
    = Some (new_agent i config (clock i)).
Proof.
  induction l as [|j l IH]; intros m Hnd Hi Hcfg; simpl.
  { by apply elem_of_nil in Hi. }
  apply NoDup_cons in Hnd as [Hj Hnd].
  destruct (decide (i ∈ l)) as [Hil|Hil]; [by apply IH|].
  apply elem_of_cons in Hi as [->|?]; [|done].
  rewrite create_agents_get_other.
  - rewrite create_agent_get, Hcfg. by rewrite decide_True.
  - intros i' Hi' Heq. apply agent_key_inj in Heq. by subst.
Qed.

(** X19. [initialize] writes the first [min(max_agents, 5)] roster keys
    whatever the manager holds: called on a manager that has already run,
    it replaces each of these agents by a new idle one with zero counters,
    keeps the agents under any other key, and leaves the queue, the active
    map, the completed list and every statistic but the start time as they
    are. *)
Theorem initialize_resets_roster (m : AgentManager) (clock : nat -> Qc)
    (now : Qc) :
  let m' := initialize m clock now in
  (∀ i config,
     (Z.of_nat i < max_agents m)%Z -> agent_configs !! i = Some config ->
     dict_get (agents m') (agent_key i)
     = Some (new_agent i config (clock i)))
  ∧ (∀ key,
       key ∉ ["agent_1"; "agent_2"; "agent_3"; "agent_4"; "agent_5"] ->
       dict_get (agents m') key = dict_get (agents m) key)
  ∧ task_queue m' = task_queue m
  ∧ completed_tasks m' = completed_tasks m
  ∧ active_tasks m' = active_tasks m
  ∧ stats m' = Stats.set_start_time now (stats m).
Proof.
  intros m'.
  destruct (create_agents_frame clock (init_range m) m)
    as (Hq & Hc & Ha & _ & Hs & _).
  destruct (init_range_cases m) as (k & Hk & Hrange & Hlt).
  assert (Hag : agents m'
                = agents (foldl (fun m i => create_agent m i (clock i)) m
                            (seq 0 k)))
    by (subst m'; by rewrite initialize_agents, Hrange).
  split_and!.
  - intros i config Hi Hcfg.
    assert (Hi5 : (i < 5)%nat).
    { apply lookup_lt_Some in Hcfg. simpl in Hcfg. lia. }
    rewrite Hag. apply create_agents_get_in; [apply NoDup_seq| |done].
    apply elem_of_seq. specialize (Hlt i Hi5 Hi). lia.
  - intros key Hkey. rewrite Hag. apply create_agents_get_other.
    intros i Hi%elem_of_seq Heq. apply Hkey. rewrite <- Heq.
    assert (Hi5 : (i < 5)%nat) by lia.
    do 5 (destruct i as [|i]; [compute_done|]). lia.
  - subst m'. unfold initialize. simpl. by rewrite Hq.
  - subst m'. unfold initialize. simpl. by rewrite Hc.
  - subst m'. unfold initialize. simpl. by rewrite Ha.
  - subst m'. unfold initialize. simpl. by rewrite Hs.
Qed.

Lemma initialize_resets_roster_witness :
  agent_field Agent.completed_tasks
    (initialize pool_done (fun _ => Qc_of_Z 100) (Qc_of_Z 100)) "agent_1"
  = Some 0%nat
  ∧ Stats.completed_tasks
      (stats (initialize pool_done (fun _ => Qc_of_Z 100) (Qc_of_Z 100)))
    = 1%nat.
Proof.
  destruct (initialize_resets_roster pool_done (fun _ => Qc_of_Z 100)
              (Qc_of_Z 100)) as (H & _ & _ & _ & _ & Hs).
  split.
  - unfold agent_field. change "agent_1" with (agent_key 0).
    rewrite (H 0%nat ("WebScraper",
                      ["scraping"; "data_extraction"; "screenshots"]));
      [reflexivity| |reflexivity].
    by vm_compute.
  - rewrite Hs. by vm_compute.
Defined.

(** ** The mock executor *)

(** X20. What the mock executor hands to the completion handler: the agent
    is no longer busy, the execution time is [min(timeout, 5)], the run
    succeeds exactly when the clock fraction is below the success rate of
    the task, so a CRITICAL task succeeds whenever a task of another
    priority would; the handler then stores the dictionary as the result
    and, for a failure only, the message of the mock (never the default
    "Unknown error") as the error. *)
Theorem mock_execution_recorded (self : MockBrowserAgent.t) (task : Task.t)
    (frac now : Qc) :
  let res := MockBrowserAgent.execute_task self task frac in
  let r := res.2 in
  let t' :=
    complete_task task (Returned (MockBrowserAgent.to_exec_result r)) now in
  MockBrowserAgent.is_busy res.1 = false
  ∧ MockBrowserAgent.id res.1 = MockBrowserAgent.id self
  ∧ MockBrowserAgent.execution_time r = Z.min (Task.timeout task) 5
  ∧ (MockBrowserAgent.success r = true
     ↔ (frac < MockBrowserAgent.success_rate task)%Qc)
  ∧ (∀ task2, Task.priority task2 = CRITICAL ->
       MockBrowserAgent.success r = true ->
       MockBrowserAgent.success
         (MockBrowserAgent.execute_task self task2 frac).2 = true)
  ∧ Task.result t' = Some (MockBrowserAgent.to_exec_result r)
  ∧ (MockBrowserAgent.success r = true -> Task.error t' = Task.error task)
  ∧ (MockBrowserAgent.success r = false ->
     Task.error t' = Some ("Mock error in task " +:+ Task.name task))
  ∧ (Task.error task ≠ Some "Unknown error" ->
     Task.error t' ≠ Some "Unknown error").
Proof.
  intros res r t'. subst t' r res. unfold MockBrowserAgent.execute_task.
  simpl. split_and!; try done; try (by case_bool_decide).
  intros task2 Hcrit.
  destruct (bool_decide (frac < MockBrowserAgent.success_rate task)%Qc)
    eqn:Hlt; [|done].
  apply bool_decide_eq_true in Hlt. intros _.
  rewrite bool_decide_eq_true_2; [done|].
  eapply Qclt_le_trans; [exact Hlt|].
  unfold MockBrowserAgent.success_rate. rewrite Hcrit.
  rewrite (decide_False (P := CRITICAL ≠ CRITICAL)) by (intros H; by apply H).
  by case_decide.
Qed.

Lemma mock_execution_recorded_witness :
  Task.error
    (complete_task scrape_job_started
       (Returned
          (MockBrowserAgent.to_exec_result
             (MockBrowserAgent.execute_task
                (MockBrowserAgent.new "agent_1" ["scraping"])
                scrape_job_started (Q2Qc (93 # 100))).2))
       (Qc_of_Z 25))
  = Some "Mock error in task Scrape Product Data".
Proof.
  destruct (mock_execution_recorded
              (MockBrowserAgent.new "agent_1" ["scraping"])
              scrape_job_started (Q2Qc (93 # 100)) (Qc_of_Z 25))
    as (_ & _ & _ & _ & _ & _ & _ & H & _).
  by rewrite H.
Defined.

(** ** A dispatch and its completion *)

(** X21. Round trip of a task through an agent: assigning a task that is
    not yet active to an agent of the pool and then applying the returned
    result of its execution leaves the active map and the queue as they
    were before the assignment, appends the completed task, which keeps the
    agent and start time of the assignment, to the completed list, and
    leaves the agent IDLE with no current task and one more completed or
    failed task; no other agent is touched. *)
Theorem assign_then_complete (m : AgentManager) (task : Task.t)
    (agent_id : string) (a : Agent.t) (r : ExecResult)
    (now_activity now_started execution_time now_completed now_done : Qc) :
  dict_get (agents m) agent_id = Some a ->
  active_tasks m !! Task.id task = None ->
  let m1 := _assign_task_to_agent m task agent_id now_activity now_started in
  let task1 :=
    Task.set_started_at (Some now_started)
      (Task.set_assigned_agent (Some agent_id) task) in
  let m2 :=
    _execute_task m1 task1 agent_id (Returned r) execution_time now_completed
      now_done in
  active_tasks m1 !! Task.id task = Some task1
  ∧ agent_field Agent.status m1 agent_id = Some BUSY
  ∧ agent_field Agent.current_task m1 agent_id = Some (Some (Task.id task))
  ∧ active_tasks m2 = active_tasks m
  ∧ task_queue m2 = task_queue m
  ∧ completed_tasks m2
    = completed_tasks m ++ [complete_task task1 (Returned r) now_completed]
  ∧ Task.assigned_agent (complete_task task1 (Returned r) now_completed)
    = Some agent_id
  ∧ agent_field Agent.status m2 agent_id = Some IDLE
  ∧ agent_field Agent.current_task m2 agent_id = Some None
  ∧ agent_field
      (fun a => (Agent.completed_tasks a + Agent.failed_tasks a)%nat) m2
      agent_id
    = Some (S (Agent.completed_tasks a + Agent.failed_tasks a))
  ∧ ∀ k, k ≠ agent_id -> dict_get (agents m2) k = dict_get (agents m) k.
Proof.
  intros Ha Hact m1 task1 m2.
  subst m2 task1 m1. unfold _assign_task_to_agent, agent_field.
  rewrite Ha. simpl.
  rewrite !dict_get_update, !decide_True by done. rewrite Ha. simpl.
  split_and!; try done.
  - apply lookup_insert_eq.
  - by apply delete_insert_id.
  - by destruct (get_success r).
  - destruct (get_success r); simpl; f_equal; lia.
  - intros k Hk. rewrite !dict_get_update. by rewrite !decide_False.
Qed.

Lemma assign_then_complete_witness :
  active_tasks
    (_execute_task
       (_assign_task_to_agent pool_ready scrape_job "agent_1" (Qc_of_Z 20)
          (Qc_of_Z 20))
       (Task.set_started_at (Some (Qc_of_Z 20))
          (Task.set_assigned_agent (Some "agent_1") scrape_job))
       "agent_1" (Returned mock_success) (Qc_of_Z 5) (Qc_of_Z 25)
       (Qc_of_Z 25))
  = active_tasks pool_ready.
Proof.
  refine (proj1 (proj2 (proj2 (proj2
            (assign_then_complete pool_ready scrape_job "agent_1"
               (new_agent 0 ("WebScraper",
                             ["scraping"; "data_extraction"; "screenshots"])
                  (Qc_of_Z 0))
               mock_success (Qc_of_Z 20) (Qc_of_Z 20) (Qc_of_Z 5)
               (Qc_of_Z 25) (Qc_of_Z 25) _ _))))).
  - by vm_compute.
  - by vm_compute.
Defined.

(** ** Capabilities in the score *)

Lemma agent_score_le (a : Agent.t) (task : Task.t) :
  (agent_score a task
   <= Qc_of_nat (matching_capabilities a task) * Qc_of_Z 10 + Qc_of_Z 5)%Qc.
Proof.
  destruct (Agent.completed_tasks a) as [|c] eqn:Hc.
  - rewrite agent_score_fresh by done. apply Qcle_refl.
  - rewrite agent_score_used by lia. rewrite Hc.
    set (ma := Qc_of_nat (matching_capabilities a task)).
    set (r := (Qc_of_nat (S c)
               / Qc_of_nat (S c + Agent.failed_tasks a))%Qc).
    apply (proj2 (Qcle_minus_iff _ _)).
    replace (ma * Qc_of_Z 10 + Qc_of_Z 5
             + - (ma * Qc_of_Z 10 - Qc_of_nat (S c) * one_tenth
                  + r * Qc_of_Z 5))%Qc
      with (Qc_of_nat (S c) * one_tenth + (1 + - r) * Qc_of_Z 5)%Qc by ring.
    apply Qcplus_nonneg_nonneg.
    + apply Qcmult_nonneg_nonneg; [apply Qc_of_nat_nonneg|].
      by apply Qclt_le_weak, one_tenth_pos.
    + apply Qcmult_nonneg_nonneg; [|by apply Qclt_le_weak, five_pos].
      apply (proj1 (Qcle_minus_iff _ _)). apply rate_le_1. lia.
Qed.

Lemma requirements_length (task : Task.t) :
  (1 <= length (_extract_task_requirements task) <= 4)%nat.
Proof.
  unfold _extract_task_requirements.
  destruct (contains "form" _), (contains "scrape" _), (contains "extract" _),
    (contains "test" _), (contains "monitor" _); simpl; lia.
Qed.

Lemma matching_capabilities_le (a : Agent.t) (task : Task.t) :
  (matching_capabilities a task <= 4)%nat.
Proof.
  unfold matching_capabilities.
  etrans; [apply (subseteq_size _ (list_to_set
                    (_extract_task_requirements task)))|].
  { set_solver. }
  destruct (requirements_keywords task) as (_ & _ & _ & _ & _ & _ & Hnd).
  rewrite size_list_to_set by done. apply requirements_length.
Qed.

(** X22. A task always requires between one and four capabilities, so at
    most four capabilities of an agent count, and no score exceeds 45: at
    most 40 for the capabilities and at most 5 for the record of the
    agent. *)
Theorem agent_score_at_most_45 (a : Agent.t) (task : Task.t) :
  (1 <= length (_extract_task_requirements task) <= 4)%nat
  ∧ (matching_capabilities a task <= 4)%nat
  ∧ (agent_score a task
     <= Qc_of_nat (matching_capabilities a task) * Qc_of_Z 10 + Qc_of_Z 5)%Qc
  ∧ (agent_score a task <= Qc_of_Z 45)%Qc.
Proof.
  split; [apply requirements_length|].
  split; [apply matching_capabilities_le|].
  split; [apply agent_score_le|].
  eapply Qcle_trans; [apply agent_score_le|].
  replace (Qc_of_Z 45) with (Qc_of_nat 4 * Qc_of_Z 10 + Qc_of_Z 5)%Qc
    by (by apply Qc_is_canon).
  apply Qcplus_le_mono_r. apply Qcmult_le_compat_r.
  - apply Qc_of_nat_le, matching_capabilities_le.
  - by apply Qclt_le_weak, ten_pos.
Qed.

(** X23. Capability scoring: of two agents with the same completed and
    failed counts the one that matches more of the required capabilities
    scores strictly higher, and of two unused agents the selector takes the
    one that matches more, in whichever order they are listed. *)
Theorem select_prefers_capable_agent (m : AgentManager) (task : Task.t)
    (x y : string) (a b : Agent.t) :
  Agent.completed_tasks a = Agent.completed_tasks b ->
  Agent.failed_tasks a = Agent.failed_tasks b ->
  (matching_capabilities b task < matching_capabilities a task)%nat ->
  (agent_score b task < agent_score a task)%Qc
  ∧ (dict_get (agents m) x = Some a -> dict_get (agents m) y = Some b ->
     Agent.completed_tasks a = 0%nat ->
     _select_best_agent m task [x; y] = Return (Some x)
     ∧ _select_best_agent m task [y; x] = Return (Some x)).
Proof.
  intros Hc Hf Hm.
  assert (Hlt : (agent_score b task < agent_score a task)%Qc).
  { assert (Hmq : (0 < (Qc_of_nat (matching_capabilities a task)
                        + - Qc_of_nat (matching_capabilities b task))
                       * Qc_of_Z 10)%Qc).
    { apply Qcmult_pos_pos; [|apply ten_pos].
      apply (proj1 (Qclt_minus_iff _ _)). unfold Qc_of_nat.
      apply (proj1 (Z2Qc_inj_lt _ _)). lia. }
    apply (proj2 (Qclt_minus_iff _ _)).
    destruct (Agent.completed_tasks a) as [|c] eqn:Hca.
    - rewrite (agent_score_fresh a), (agent_score_fresh b) by done.
      match goal with |- (0 < ?e)%Qc =>
        replace e with ((Qc_of_nat (matching_capabilities a task)
                         + - Qc_of_nat (matching_capabilities b task))
                        * Qc_of_Z 10)%Qc by ring end.
      done.
    - rewrite (agent_score_used a), (agent_score_used b) by lia.
      rewrite Hca, <- Hc, <- Hf.
      match goal with |- (0 < ?e)%Qc =>
        replace e with ((Qc_of_nat (matching_capabilities a task)
                         + - Qc_of_nat (matching_capabilities b task))
                        * Qc_of_Z 10)%Qc by ring end.
      done. }
  split; [done|]. intros Hx Hy Ha.
  assert (Hlight : (Qc_of_Z (-1) < agent_score a task)%Qc)
    by (apply agent_score_light; lia).
  split.
  - rewrite (select_two m task x y a b) by done.
    rewrite (bool_decide_eq_true_2 _ Hlight).
    rewrite bool_decide_eq_false_2; [done|].
    by apply Qcle_not_lt, Qclt_le_weak.
  - rewrite (select_two m task y x b a) by done.
    rewrite (bool_decide_eq_true_2 _ Hlt), (bool_decide_eq_true_2 _ Hlight).
    by case_bool_decide.
Qed.

Lemma select_prefers_capable_agent_witness :
  let scraper :=
    Agent.mk "agent_1" "WebScraper" IDLE None 0 0 (Qc_of_Z 0) (Qc_of_Z 0)
      ["scraping"] 1 in
  let general :=
    Agent.mk "agent_2" "GeneralPurpose" IDLE None 0 0 (Qc_of_Z 0) (Qc_of_Z 0)
      ["general"] 1 in
  let m :=
    mkManager 2 [("agent_2", general); ("agent_1", scraper)] [] [] ∅ true
      (Stats.mk 0 0 0 (Qc_of_Z 0) (Qc_of_Z 0)) in
  _select_best_agent m scrape_job ["agent_2"; "agent_1"]
  = Return (Some "agent_1").
Proof.
  intros scraper general m.
  refine (proj2 (proj2 (select_prefers_capable_agent m scrape_job "agent_1"
                          "agent_2" scraper general _ _ _) _ _ _));
    try reflexivity.
  vm_compute. lia.
Defined.

(** ** Busy agents *)

Lemma Forall_dict_update (Q : Agent.t -> Prop) (d : list (string * Agent.t))
    (k : string) (f : Agent.t -> Agent.t) :
  (∀ a, Q a -> Q (f a)) ->
  Forall (fun kv => Q kv.2) d ->
  Forall (fun kv => Q kv.2) (dict_update d k f).
Proof.
  intros Hf. induction 1 as [|[k0 a] d Ha Hd IH]; simpl; [done|].
  case_decide; constructor; simpl; auto.
Qed.

Lemma monitor_agent_busy_has_task (now : Qc) (a : Agent.t) :
  busy_has_task a -> busy_has_task (monitor_agent now a).
Proof.
  unfold busy_has_task, monitor_agent. intros Ha.
  destruct (Agent.status a) eqn:Hs; try (intros; congruence);
    case_bool_decide; simpl; rewrite ?Hs; done.
Qed.

Lemma assign_batch_busy_has_task (n i : nat) (m : AgentManager)
    (av : list string) (clock : nat -> Qc * Qc) :
  Forall (fun kv => busy_has_task kv.2) (agents m) ->
  Forall (fun kv => busy_has_task kv.2)
    (agents (assign_batch n i m av clock)).
Proof.
  intros Hm.
  destruct (assign_batch_invariant
              (fun m' _ => Forall (fun kv => busy_has_task kv.2) (agents m')))
    with (n := n) (i := i) (m := m) (av := av) (clock := clock)
    as [_ H]; try done.
  intros m0 av0 task aid t1 t2 H0 _. unfold _assign_task_to_agent.
  destruct (dict_get (agents m0) aid); simpl; [|done].
  by apply (Forall_dict_update busy_has_task).
Qed.

Lemma step_busy_has_task (m : AgentManager) (e : Event) :
  Forall (fun kv => busy_has_task kv.2) (agents m) ->
  Forall (fun kv => busy_has_task kv.2) (agents (step m e)).
Proof.
  intros Hm. destruct e; simpl; try done.
  - unfold start_execution. by destruct (is_running m).
  - destruct (is_running m); [|done]. unfold _task_distributor.
    destruct (task_queue m); [done|].
    destruct (idle_agents (agents m)); [done|].
    by apply assign_batch_busy_has_task.
  - destruct (is_running m); [|done]. simpl.
    apply Forall_fmap. eapply Forall_impl; [exact Hm|].
    intros [k a] Ha. simpl in *. by apply monitor_agent_busy_has_task.
  - destruct (is_running m); [|done]. unfold _performance_tracker.
    by destruct (0 <? _)%nat.
  - apply (Forall_dict_update busy_has_task); [|done].
    intros a _. unfold busy_has_task.
    destruct out as [r|msg]; simpl; [by destruct (get_success r)|done].
Qed.

(** X24. In every state a run reaches from a newly initialised manager,
    every BUSY agent has a current task: no event makes an agent BUSY
    without giving it a task, and none clears the task of an agent it
    leaves BUSY. *)
Theorem run_busy_has_task (n : Z) (clock : nat -> Qc) (now : Qc)
    (events : list Event) (k : string) (a : Agent.t) :
  let m := run (initialize (new_manager n) clock now) events in
  dict_get (agents m) k = Some a ->
  Agent.status a = BUSY ->
  ∃ task_id, Agent.current_task a = Some task_id.
Proof.
  intros m Hk Hs.
  assert (H : Forall (fun kv => busy_has_task kv.2) (agents m)).
  { apply (run_invariant_all
             (fun m => Forall (fun kv => busy_has_task kv.2) (agents m)));
      [apply step_busy_has_task|].
    destruct (initialize_new_agents n clock now) as (j & Hj & ->).
    apply Forall_take, Forall_fmap, Forall_forall. by intros i _. }
  apply dict_get_Some_elem in Hk. rewrite Forall_forall in H.
  specialize (H _ Hk Hs). simpl in H.
  destruct (Agent.current_task a) as [tid|]; [by exists tid|done].
Qed.

Lemma run_busy_has_task_witness :
  ∃ task_id,
    Agent.current_task
      (Agent.mk "agent_1" "WebScraper" BUSY (Some "task-1") 0 0 (Qc_of_Z 0)
         (Qc_of_Z 20) ["scraping"; "data_extraction"; "screenshots"] 1)
    = Some task_id.
Proof.
  apply (run_busy_has_task 1 (fun _ => Qc_of_Z 0) (Qc_of_Z 0)
           [Submit scrape_job (Qc_of_Z 10); Start;
            Dispatch (fun _ => (Qc_of_Z 20, Qc_of_Z 20))] "agent_1").
  - by vm_compute.
  - reflexivity.
Defined.
